(** * Email image tracking backend: event log, dedup guard, image resolver

    A shallow embedding of [main.py] and the properties of its event store
    ([append_event], [read_jsonl]), its dedup guard ([already_opened_recent]),
    its image resolver ([api_img]) and its query endpoints.

    Conventions of the embedding.
    - A Python [str] is modelled by its UTF-8 encoding, a [string] of bytes;
      this is also what the log files hold on disk.  Equality, prefix tests,
      splitting at ['/'] and removing ['Z'] agree on both views, and [strip]
      is written out on the encoded form of the Unicode white space.
    - A Python [dict] is a [gmap string json]; [None] is [JNull].
    - The JSON codec, the ISO-8601 codec of [datetime] and the MIME table
      are library code: they are a type class ([Platform]) with the laws the
      proofs use, and [Std] at the end of the file implements them.
    - The file system, the network and the clock are fields of [world];
      the handlers run in a state-and-exception monad over it. *)

From Stdlib Require Import ZArith Ascii String DecimalString.
From stdpp Require Import gmap strings list fin_maps sorting.

#[local] Set Warnings "-register-all".
#[local] Open Scope Z_scope.

(** ** Text *)

Module Text.

Definition code (c : ascii) : N := N_of_ascii c.

Definition LF : ascii := ascii_of_N 10.
Definition CR : ascii := ascii_of_N 13.
Definition nl : string := String LF "".

(** [s[n:]] and [s[:n]] for [0 <= n]. *)
Fixpoint drop (n : nat) (s : string) : string :=
  match n, s with
  | S n, String _ r => drop n r
  | _, _ => s
  end.

Fixpoint take (n : nat) (s : string) : string :=
  match n, s with
  | S n, String c r => String c (take n r)
  | _, _ => ""
  end.

(** [c in s]. *)
Fixpoint mem (c : ascii) (s : string) : bool :=
  match s with
  | "" => false
  | String a r => bool_decide (a = c) || mem c r
  end.

(** [s.rfind(c)] for a one-character [c]: the highest index, or [-1]. *)
Fixpoint rfind (c : ascii) (s : string) : Z :=
  match s with
  | "" => -1
  | String a r =>
      let i := rfind c r in
      if 0 <=? i then i + 1 else if bool_decide (a = c) then 0 else -1
  end.

(** [s.rstrip(c)] for a one-character [c]. *)
Fixpoint rstrip_char (c : ascii) (s : string) : string :=
  match s with
  | "" => ""
  | String a r =>
      match rstrip_char c r with
      | "" => if bool_decide (a = c) then "" else String a ""
      | r' => String a r'
      end
  end.

(** [s.replace(c, "")] for a one-character [c]. *)
Fixpoint remove (c : ascii) (s : string) : string :=
  match s with
  | "" => ""
  | String a r => if bool_decide (a = c) then remove c r else String a (remove c r)
  end.

(** [s.startswith(p)]. *)
Fixpoint startswith (p s : string) : bool :=
  match p, s with
  | "", _ => true
  | String a p, String b s => bool_decide (a = b) && startswith p s
  | _, _ => false
  end.

(** [str.isspace] on the UTF-8 encoding.  One byte: U+0009..U+000D,
    U+001C..U+0020.  Two bytes: U+0085, U+00A0.  Three bytes: U+1680,
    U+2000..U+200A, U+2028, U+2029, U+202F, U+205F, U+3000. *)
Definition isspace1 (c : ascii) : bool :=
  let n := code c in
  ((9 <=? n) && (n <=? 13) || (28 <=? n) && (n <=? 32))%N.

Definition isspace2 (c1 c2 : ascii) : bool :=
  ((code c1 =? 194) && ((code c2 =? 133) || (code c2 =? 160)))%N.

Definition isspace3 (c1 c2 c3 : ascii) : bool :=
  let '(a, b, c) := (code c1, code c2, code c3) in
  ((a =? 225) && (b =? 154) && (c =? 128)
   || (a =? 226) && (b =? 128)
      && ((128 <=? c) && (c <=? 138) || (c =? 168) || (c =? 169) || (c =? 175))
   || (a =? 226) && (b =? 129) && (c =? 159)
   || (a =? 227) && (b =? 128) && (c =? 128))%N.

(** [s.lstrip()], [s.rstrip()], [s.strip()]. *)
Fixpoint lstrip (s : string) : string :=
  match s with
  | String c1 r1 =>
      if isspace1 c1 then lstrip r1 else
      match r1 with
      | String c2 r2 =>
          if isspace2 c1 c2 then lstrip r2 else
          match r2 with
          | String c3 r3 => if isspace3 c1 c2 c3 then lstrip r3 else s
          | "" => s
          end
      | "" => s
      end
  | "" => s
  end.

Definition blank (s : string) : bool := bool_decide (lstrip s = "").

Fixpoint rstrip (s : string) : string :=
  match s with
  | "" => ""
  | String c r => if blank s then "" else String c (rstrip r)
  end.

Definition strip (s : string) : string := rstrip (lstrip s).

(** The lines a text-mode file yields when iterated: universal newlines
    turn ["\r\n"] and ["\r"] into ["\n"], every line keeps its ["\n"], the
    last one may lack it.  [pendingcr] holds after a ["\r"], whose line is
    already out. *)
Fixpoint readlines_go (pendingcr : bool) (cur s : string) : list string :=
  match s with
  | "" => match cur with "" => [] | _ => [cur] end
  | String c r =>
      if bool_decide (c = LF) then
        if pendingcr then readlines_go false cur r
        else (cur +:+ nl) :: readlines_go false "" r
      else if bool_decide (c = CR) then
        (cur +:+ nl) :: readlines_go true "" r
      else readlines_go false (cur +:+ String c "") r
  end.

Definition readlines (s : string) : list string := readlines_go false "" s.

(** The text is empty or ends with a newline. *)
Fixpoint closed (s : string) : bool :=
  match s with
  | "" => true
  | String c "" => bool_decide (c = LF)
  | String _ r => closed r
  end.

(** The bytes decode with the strict [utf-8] codec: every character is
    one byte below 0x80, or a lead byte with its continuation bytes, in the
    shortest form, below U+110000 and no surrogate. *)
Definition continuation (c : ascii) : bool := ((128 <=? code c) && (code c <=? 191))%N.

Definition lead2 (a : ascii) : bool := ((194 <=? code a) && (code a <=? 223))%N.

Definition lead3 (a b : ascii) : bool :=
  let '(m, n) := (code a, code b) in
  ((m =? 224) && (160 <=? n) && (n <=? 191)
   || (225 <=? m) && (m <=? 236) && continuation b
   || (m =? 237) && (128 <=? n) && (n <=? 159)
   || (238 <=? m) && (m <=? 239) && continuation b)%N.

Definition lead4 (a b : ascii) : bool :=
  let '(m, n) := (code a, code b) in
  ((m =? 240) && (144 <=? n) && (n <=? 191)
   || (241 <=? m) && (m <=? 243) && continuation b
   || (m =? 244) && (128 <=? n) && (n <=? 143))%N.

Fixpoint utf8 (s : string) : bool :=
  match s with
  | "" => true
  | String a r1 =>
      if (code a <? 128)%N then utf8 r1 else
      match r1 with
      | String b r2 =>
          if lead2 a then continuation b && utf8 r2 else
          match r2 with
          | String c r3 =>
              if lead3 a b then continuation c && utf8 r3 else
              match r3 with
              | String d r4 => lead4 a b && continuation c && continuation d && utf8 r4
              | "" => false
              end
          | "" => false
          end
      | "" => false
      end
  end.

End Text.

(** ** [posixpath] *)

Module Path.

Definition sep : ascii := "/"%char.

(** [i = p.rfind('/') + 1; return p[i:]] *)
Definition basename (p : string) : string :=
  let i := Text.rfind sep p + 1 in
  Text.drop (Z.to_nat i) p.

Definition all_sep (s : string) : bool := bool_decide (Text.rstrip_char sep s = "").

(** [head = p[:i]]; trailing slashes go unless [head] is all slashes. *)
Definition dirname (p : string) : string :=
  let i := Text.rfind sep p + 1 in
  let head := Text.take (Z.to_nat i) p in
  if negb (bool_decide (head = "")) && negb (all_sep head)
  then Text.rstrip_char sep head else head.

Definition endswith_sep (s : string) : bool :=
  bool_decide (Text.rfind sep s + 1 = Z.of_nat (String.length s)) && negb (bool_decide (s = "")).

(** [os.path.join(a, b)] *)
Definition join (a b : string) : string :=
  if Text.startswith "/" b then b
  else if bool_decide (a = "") || endswith_sep a then a +:+ b
  else a +:+ "/" +:+ b.

End Path.

(** ** Values *)

(** What [json.loads] can return.  A [float] keeps its lexeme: the program
    only ever compares values with strings and [None]. *)
Inductive json :=
| JNull
| JBool (b : bool)
| JInt (n : Z)
| JFloat (lexeme : string)
| JStr (s : string)
| JList (l : list json)
| JDict (d : gmap string json).

Definition of_opt (o : option string) : json :=
  match o with Some s => JStr s | None => JNull end.

(** [v == s] for [v = e.get(k)] and a string [s]. *)
Definition eq_str (v : option json) (s : string) : bool :=
  match v with
  | Some (JStr s') => bool_decide (s' = s)
  | _ => false
  end.

(** [v == m] for [v = e.get(k)] and [m] a string or [None]; a missing key
    reads as [None]. *)
Definition eq_opt_str (v : option json) (m : option string) : bool :=
  match m, v with
  | Some s, _ => eq_str v s
  | None, (None | Some JNull) => true
  | None, _ => false
  end.

(** [bool(s)] for [s] a string or [None]. *)
Definition truthy (o : option string) : bool :=
  match o with
  | Some s => negb (bool_decide (s = ""))
  | None => false
  end.

(** A [datetime]: microseconds since 0001-01-01T00:00:00, with the UTC
    offset when it is aware.  [utcnow] is naive. *)
Inductive datetime :=
| Naive (t : Z)
| Aware (t : Z) (utcoffset : Z).

(** Days from 0001-01-01 to 9999-12-31, the range of [datetime]. *)
Definition MAXORDINAL : Z := 3652059.
Definition DAY_US : Z := 86400000000.

Definition is_datetime (t : Z) : Prop := 0 <= t < MAXORDINAL * DAY_US.

(** [timedelta(minutes=m)] in microseconds. *)
Definition minutes_us (m : Z) : Z := m * 60000000.

(** ** Time stamps

    What [datetime.isoformat] prints: [YYYY-MM-DDTHH:MM:SS], then
    [.ffffff] when the microseconds are not zero. *)

Module Iso.

Definition digit (c : ascii) : option Z :=
  let n := Z.of_N (Text.code c) in
  if (48 <=? n) && (n <=? 57) then Some (n - 48) else None.

(** The [n] digits at the head of [s]: their value after [acc], and the rest. *)
Fixpoint number (n : nat) (acc : Z) (s : string) : option (Z * string) :=
  match n, s with
  | O, _ => Some (acc, s)
  | S n, String c r => d ← digit c; number n (10 * acc + d) r
  | S _, "" => None
  end.

Definition expect (p : ascii → bool) (s : string) : option string :=
  match s with
  | String c r => if p c then Some r else None
  | "" => None
  end.

Definition only (c : ascii) : ascii → bool := λ a, bool_decide (a = c).

Record date := Date { year : Z; month : Z; day : Z }.
Record time := Time { hour : Z; minute : Z; second : Z; microsecond : Z }.

Definition read_date (s : string) : option (date * string) :=
  '(y, s) ← number 4 0 s; s ← expect (only "-") s;
  '(m, s) ← number 2 0 s; s ← expect (only "-") s;
  '(d, s) ← number 2 0 s;
  Some (Date y m d, s).

Definition read_time (s : string) : option (time * string) :=
  '(h, s) ← number 2 0 s; s ← expect (only ":") s;
  '(m, s) ← number 2 0 s; s ← expect (only ":") s;
  '(x, s) ← number 2 0 s;
  match s with
  | String "." r => '(f, s) ← number 6 0 r; Some (Time h m x f, s)
  | _ => Some (Time h m x 0, s)
  end.

Definition read (sep : ascii → bool) (s : string) : option (date * time * string) :=
  '(d, s) ← read_date s; s ← expect sep s;
  '(t, s) ← read_time s;
  Some (d, t, s).

Definition date_in_range (d : date) : bool :=
  (1 <=? year d) && (year d <=? 9999) && (1 <=? month d) && (month d <=? 12)
  && (1 <=? day d) && (day d <=? 31).

Definition time_in_range (t : time) : bool :=
  (hour t <=? 23) && (minute t <=? 59) && (second t <=? 59).

Definition well_formed (s : string) : bool :=
  match read (only "T") s with
  | Some (d, t, "") => date_in_range d && time_in_range t
  | _ => false
  end.


End Iso.

(** ** Library code the program calls *)

Class Platform := {
  (** [json.dumps(v, ensure_ascii=False)] *)
  dumps : json → string;
  (** [json.loads(s)]; [None] when it raises *)
  loads : string → option json;
  (** [t.isoformat()] for a naive [t] *)
  isoformat : Z → string;
  (** [datetime.fromisoformat(s)]; [None] when it raises *)
  fromisoformat : string → option datetime;
  (** [mimetypes.guess_type(path)[0]] *)
  guess_type : string → option string;
  (** [urllib.parse.unquote_plus(s)] *)
  unquote_plus : string → string;
}.

(** The records the program writes: every value a string or [None]. *)
Definition scalar (v : json) : Prop := v = JNull ∨ ∃ s, v = JStr s.

Definition plain (d : gmap string json) : Prop :=
  ∀ k v, d !! k = Some v → scalar v.

Class PlatformLaws (P : Platform) : Prop := {
  loads_dumps d : plain d → loads (dumps (JDict d)) = Some (JDict d);
  dumps_no_LF d : plain d → Text.mem Text.LF (dumps (JDict d)) = false;
  dumps_no_CR d : plain d → Text.mem Text.CR (dumps (JDict d)) = false;
  dumps_stripped d : plain d → Text.strip (dumps (JDict d)) = dumps (JDict d);
  dumps_nonempty d : plain d → dumps (JDict d) ≠ "";
  fromisoformat_isoformat t :
    is_datetime t → fromisoformat (isoformat t) = Some (Naive t);
  isoformat_well_formed t : is_datetime t → Iso.well_formed (isoformat t) = true;
}.

(** ** The world: files, network, clock *)

(** An entry of the upload directory: [open(p, "rb").read()] returns the
    content or raises. *)
Inductive upload :=
| File (content : string)
| Unreadable (err : string).

(** [r.content] of a streamed response: the body, or the exception raised
    while it is downloaded. *)
Inductive body :=
| Body (content : string)
| BodyError (err : string).

(** [requests.get(url, timeout=8, stream=True)]: an exception, or a
    response of any status. *)
Inductive fetch :=
| FetchError (err : string)
| Reply (status : Z) (content_type : option string) (content : body).

Record world := World {
  (** the text files the program owns, by path: what each holds, as UTF-8 *)
  files : gmap string string;
  (** the directories [makedirs] made *)
  dirs : gset string;
  (** what [os.path.exists] and [open] find under the upload directory *)
  uploads : gmap string upload;
  net : string → fetch;
  (** the successive readings of [utcnow], and how many were taken *)
  clock : nat → Z;
  ticks : nat;
}.

Definition set_files (f : gmap string string → gmap string string) (w : world) : world :=
  World (f (files w)) (dirs w) (uploads w) (net w) (clock w) (ticks w).
Definition set_dirs (f : gset string → gset string) (w : world) : world :=
  World (files w) (f (dirs w)) (uploads w) (net w) (clock w) (ticks w).
Definition set_ticks (f : nat → nat) (w : world) : world :=
  World (files w) (dirs w) (uploads w) (net w) (clock w) (f (ticks w)).

(** The time stamp [append_event] gives in [w], and the record with it. *)
Definition now (w : world) : Z := clock w (ticks w).

(** ** State and exceptions *)

Inductive exn :=
| AttributeError
| UnicodeDecodeError.

Inductive res (A : Type) :=
| Ok (a : A)
| Raise (e : exn).
Arguments Ok {A} a.
Arguments Raise {A} e.

Definition M (A : Type) : Type := world → res A * world.

Definition ret {A} (a : A) : M A := λ w, (Ok a, w).

Definition bind {A B} (m : M A) (k : A → M B) : M B :=
  λ w, match m w with
       | (Ok a, w') => k a w'
       | (Raise e, w') => (Raise e, w')
       end.

Definition lift {A} (r : res A) : M A := λ w, (r, w).

Notation "'let*' x ':=' m 'in' k" := (bind m (λ x, k))
  (at level 10, x name, m at level 100, k at level 200).

(** The state an action leaves, whether it returns or raises. *)
Definition exec {A} (m : M A) (w : world) : world := (m w).2.
Definition result {A} (m : M A) (w : world) : res A := (m w).1.

(** ** Files *)

Definition LOG_FILE : string := "tracking_logs.jsonl".
Definition IMG_READ_FILE : string := "img_reads.jsonl".
Definition UPLOAD_FOLDER : string := "./uploads".

(** The 1x1 transparent GIF, the 41 bytes of the hexadecimal literal. *)
Definition ONE_BY_ONE_GIF : string :=
  string_of_list_ascii (ascii_of_N <$>
    [71; 73; 70; 56; 57; 97; 1; 0; 1; 0; 128; 0; 0; 255; 255; 255; 0; 255; 33;
     249; 4; 1; 0; 0; 0; 0; 44; 0; 0; 0; 0; 1; 0; 1; 0; 0; 2; 1; 68; 0; 59]%N).

(** ** Helpers *)

Definition utcnow : M Z :=
  λ w, (Ok (clock w (ticks w)), set_ticks S w).

Definition path_exists (path : string) : M bool :=
  λ w, (Ok (bool_decide (is_Some (files w !! path))), w).

(** [open(path, "w").close()] *)
Definition truncate (path : string) : M unit :=
  λ w, (Ok (), set_files <[path := ""]> w).

(** What the file at [path] holds; nothing when it does not exist. *)
Definition content (w : world) (path : string) : string :=
  default "" (files w !! path).

(** [open(path, "a").write(s)] *)
Definition write_append (path s : string) : M unit :=
  λ w, (Ok (), set_files <[path := content w path +:+ s]> w).

(** [open(path, "r", encoding="utf-8")] read to its end, for a file that
    exists and holds text; [decode_file] below is the same on any bytes. *)
Definition read_text (path : string) : M string :=
  λ w, (Ok (content w path), w).

(** The directories above [d], nearest first. *)
Fixpoint parents (fuel : nat) (d : string) : list string :=
  match fuel with
  | O => []
  | S n =>
      let h := Path.dirname d in
      if bool_decide (h = "") || bool_decide (h = d) then [] else h :: parents n h
  end.

(** [os.makedirs(d, exist_ok=True)]: [d] and the directories above it. *)
Definition makedirs (d : string) : M unit :=
  λ w, (Ok (), set_dirs (λ ds, ds ∪ list_to_set (d :: parents (String.length d) d)) w).

(** [os.path.dirname(path) or "."] *)
Definition log_dir (path : string) : string :=
  let d := Path.dirname path in if bool_decide (d = "") then "." else d.

(** For a [path] that names a file in a directory that can be made, as the
    two log paths do; what [os.makedirs] and [open] raise on other paths
    (the empty path, a directory) is not part of the state. *)
Definition ensure_file (path : string) : M unit :=
  let* _ := makedirs (log_dir path) in
  let* found := path_exists path in
  if negb found then truncate path else ret ().

(** The part of [Request] the handlers read. *)
Record request := Request {
  user_agent : option string;
  client_host : option string;
}.

(** The response objects the handlers build, by the arguments they give
    the class; how the framework writes them out is not part of them. *)
Inductive response :=
| Response (content media_type : string) (headers : list (string * string))
| RedirectResponse (url : string) (status_code : Z).

Section program.
Context `{P : Platform}.

(** The dictionary [obj] once [append_event] has stamped it. *)
Definition stamp (obj : gmap string json) : M (gmap string json) :=
  match obj !! "time" with
  | None =>
      let* now := utcnow in
      ret (<["time" := JStr (isoformat now +:+ "Z")]> obj)
  | Some _ => ret obj
  end.

(** The same, as a function of the state, and the clock readings it takes. *)
Definition stamped (w : world) (obj : gmap string json) : gmap string json :=
  match obj !! "time" with
  | None => <["time" := JStr (isoformat (now w) +:+ "Z")]> obj
  | Some _ => obj
  end.

Definition stamp_ticks (obj : gmap string json) : nat :=
  match obj !! "time" with None => 1 | Some _ => 0 end.

Definition append_event (path : string) (obj : gmap string json) : M unit :=
  let* obj := stamp obj in
  let* _ := ensure_file path in
  write_append path (dumps (JDict obj) +:+ Text.nl).

(** The line of a record in a log file. *)
Definition line (d : gmap string json) : string := dumps (JDict d) +:+ Text.nl.

(** One turn of the loop of [read_jsonl]: the record of a line, if any. *)
Definition parse_line (line : string) : option json :=
  let line := Text.strip line in
  if bool_decide (line = "") then None else loads line.

Definition read_jsonl (path : string) : M (list json) :=
  let* _ := ensure_file path in
  let* text := read_text path in
  ret (omap parse_line (Text.readlines text)).

(** The records a file holds, as [read_jsonl] sees them. *)
Definition records (w : world) (path : string) : list json :=
  omap parse_line (Text.readlines (content w path)).

(** [open(path, "r", encoding="utf-8")] and [for line in f] on a file of
    any bytes: the file is decoded while it is iterated, outside the [try],
    so bytes that are not UTF-8 raise and no line is returned. *)
Definition decode_file (path : string) : M string :=
  λ w, if Text.utf8 (content w path) then (Ok (content w path), w)
       else (Raise UnicodeDecodeError, w).

(** [read_jsonl] on a file of any bytes. *)
Definition read_jsonl_bytes (path : string) : M (list json) :=
  let* _ := ensure_file path in
  let* text := decode_file path in
  ret (omap parse_line (Text.readlines text)).

(** The body of the [try]: [e["time"]] parses to a naive time at or
    after [cutoff].  Every exception in it is swallowed. *)
Definition recent (cutoff : Z) (d : gmap string json) : bool :=
  match d !! "time" with
  | Some (JStr s) =>
      match fromisoformat (Text.remove "Z" s) with
      | Some (Naive t) => cutoff <=? t
      | _ => false
      end
  | _ => false
  end.

Definition matches (email : string) (message_id : option string)
    (d : gmap string json) : bool :=
  eq_str (d !! "type") "pixel_open" && eq_str (d !! "email") email
  && eq_opt_str (d !! "message_id") message_id.

(** The loop of [already_opened_recent] over [reversed(events)];
    [e.get] raises on a record that is not a dictionary. *)
Fixpoint scan (email : string) (message_id : option string) (cutoff : Z)
    (es : list json) : res bool :=
  match es with
  | [] => Ok false
  | JDict d :: es =>
      if matches email message_id d && recent cutoff d then Ok true
      else scan email message_id cutoff es
  | _ :: _ => Raise AttributeError
  end.

Definition already_opened_recent (email : string) (message_id : option string)
    (minutes : Z) : M bool :=
  let* events := read_jsonl LOG_FILE in
  let* now := utcnow in
  let cutoff := now - minutes_us minutes in
  lift (scan email message_id cutoff (reverse events)).

(** *** Tracking pixel and image proxy *)

Definition HEADERS : list (string * string) :=
  [("Cache-Control", "no-cache, no-store, must-revalidate");
   ("Prpragma", "no-cache");
   ("Expires", "0");
   ("Content-Disposition", "inline; filename=pixel.gif")].

Definition placeholder : response :=
  Response ONE_BY_ONE_GIF "image/gif" HEADERS.

Definition is_remote (p : string) : bool :=
  Text.startswith "http://" p || Text.startswith "https://" p.

Definition pixel_event (email : string) (image_param message_id : option string)
    (request : option request) : gmap string json :=
  <["type" := JStr "pixel_open"]> (
  <["email" := JStr email]> (
  <["message_id" := of_opt message_id]> (
  <["image_param" := of_opt image_param]> (
  <["user_agent" := of_opt (request ≫= user_agent)]> (
  <["remote_addr" := of_opt (request ≫= client_host)]> ∅))))).

Definition local_ok (email : string) (message_id : option string)
    (image_param : string) : gmap string json :=
  <["email" := JStr email]> (<["message_id" := of_opt message_id]> (
  <["served" := JStr "local"]> (<["filename" := JStr image_param]> ∅))).

Definition local_failed (email : string) (message_id : option string)
    (err : string) : gmap string json :=
  <["email" := JStr email]> (<["message_id" := of_opt message_id]> (
  <["error" := JStr err]> (<["served" := JStr "local"]> ∅))).

Definition remote_ok (email : string) (message_id : option string)
    (url : string) : gmap string json :=
  <["email" := JStr email]> (<["message_id" := of_opt message_id]> (
  <["served" := JStr "remote"]> (<["url" := JStr url]> ∅))).

Definition remote_failed (email : string) (message_id : option string)
    (url err : string) : gmap string json :=
  <["email" := JStr email]> (<["message_id" := of_opt message_id]> (
  <["served" := JStr "remote"]> (<["url" := JStr url]> (
  <["error" := JStr err]> ∅)))).

Definition upload_exists (fpath : string) : M bool :=
  λ w, (Ok (bool_decide (is_Some (uploads w !! fpath))), w).

(** [open(fpath, "rb").read()]: the content, or the message of the
    exception. *)
Definition upload_read (fpath : string) : M (string + string) :=
  λ w, (Ok match uploads w !! fpath with
           | Some (File content) => inl content
           | Some (Unreadable err) => inr err
           | None => inr "No such file or directory"
           end, w).

Definition requests_get (url : string) : M fetch :=
  λ w, (Ok (net w url), w).

(** [os.path.join(UPLOAD_FOLDER, os.path.basename(image_param))] *)
Definition upload_path (image_param : string) : string :=
  Path.join UPLOAD_FOLDER (Path.basename image_param).

(** The first [if] of the resolver.  [None]: control falls out of the
    [if], which happens when the file does not exist. *)
Definition serve_local (email : string) (message_id : option string)
    (image_param : string) : M (option response) :=
  let fpath := upload_path image_param in
  let* found := upload_exists fpath in
  if found then
    let mime := default "application/octet-stream" (guess_type fpath) in
    let* read := upload_read fpath in
    match read with
    | inl content =>
        let* _ := append_event IMG_READ_FILE (local_ok email message_id image_param) in
        ret (Some (Response content mime HEADERS))
    | inr err =>
        let* _ := append_event IMG_READ_FILE (local_failed email message_id err) in
        ret (Some placeholder)
    end
  else ret None.

(** The second [if].  The success event is written before [r.content]
    is read, inside the same [try]. *)
Definition proxy_remote (email : string) (message_id : option string)
    (image_param : string) : M response :=
  let* r := requests_get image_param in
  match r with
  | Reply _ content_type content =>
      let ctype := default "image/jpeg" content_type in
      let* _ := append_event IMG_READ_FILE (remote_ok email message_id image_param) in
      match content with
      | Body bytes => ret (Response bytes ctype HEADERS)
      | BodyError err =>
          let* _ := append_event IMG_READ_FILE
                      (remote_failed email message_id image_param err) in
          ret placeholder
      end
  | FetchError err =>
      let* _ := append_event IMG_READ_FILE
                  (remote_failed email message_id image_param err) in
      ret placeholder
  end.

Definition decode_image (image : option string) : option string :=
  if truthy image then unquote_plus <$> image else None.

(** What follows the dedup guard in [api_img]. *)
Definition resolve (email : string) (image_param message_id : option string)
    : M response :=
  let* local :=
    match image_param with
    | Some p =>
        if truthy image_param && negb (is_remote p)
        then serve_local email message_id p else ret None
    | None => ret None
    end in
  match local with
  | Some r => ret r
  | None =>
      match image_param with
      | Some p =>
          if truthy image_param && is_remote p
          then proxy_remote email message_id p else ret placeholder
      | None => ret placeholder
      end
  end.

Definition api_img (email : string) (image message_id : option string)
    (request : option request) : M response :=
  let image_param := decode_image image in
  let* seen := already_opened_recent email message_id 10 in
  let* _ :=
    if negb seen
    then append_event LOG_FILE (pixel_event email image_param message_id request)
    else ret () in
  resolve email image_param message_id.

(** *** Click tracking *)

Definition click_event (email redirect : string) (message_id : option string)
    (request : request) : gmap string json :=
  <["type" := JStr "click"]> (
  <["email" := JStr email]> (
  <["message_id" := of_opt message_id]> (
  <["redirect" := JStr redirect]> (
  <["user_agent" := of_opt (user_agent request)]> (
  <["remote_addr" := of_opt (client_host request)]> ∅))))).

Definition api_click (email redirect : string) (message_id : option string)
    (request : option request) : M response :=
  match request with
  | None => lift (Raise AttributeError)
  | Some rq =>
      let* _ := append_event LOG_FILE (click_event email redirect message_id rq) in
      ret (RedirectResponse redirect 302)
  end.

(** *** Query endpoints *)

(** [[x for x in l if p(x)]] where [p] starts with [x.get]. *)
Fixpoint select (p : gmap string json → bool) (l : list json) : res (list json) :=
  match l with
  | [] => Ok []
  | JDict d :: l =>
      match select p l with
      | Ok out => Ok (if p d then JDict d :: out else out)
      | Raise e => Raise e
      end
  | _ :: _ => Raise AttributeError
  end.

Record by_email := ByEmail {
  opens : list json;
  clicks : list json;
  by_email_img_reads : list json;
}.

Definition tracking_by_email (email : string) : M by_email :=
  let* logs := read_jsonl LOG_FILE in
  let* reads := read_jsonl IMG_READ_FILE in
  let* o := lift (select (λ x, eq_str (x !! "type") "pixel_open"
                                && eq_str (x !! "email") email) logs) in
  let* c := lift (select (λ x, eq_str (x !! "type") "click"
                                && eq_str (x !! "email") email) logs) in
  let* i := lift (select (λ x, eq_str (x !! "email") email) reads) in
  ret (ByEmail o c i).

(** [l[0:n]] for any integer [n]. *)
Definition slice_to {A} (n : Z) (l : list A) : list A :=
  if 0 <=? n then take (Z.to_nat n) l
  else take (Z.to_nat (Z.of_nat (length l) + n)) l.

Record latest := Latest {
  events : list json;
  img_reads : list json;
}.

(** [n] is the query parameter when the caller gives one. *)
Definition tracking_latest (n : option Z) : M latest :=
  let n := default 200 n in
  let* logs := read_jsonl LOG_FILE in
  let* reads := read_jsonl IMG_READ_FILE in
  ret (Latest (slice_to n (reverse logs)) (slice_to n (reverse reads))).

Definition download_logs : M string :=
  let* _ := ensure_file LOG_FILE in read_text LOG_FILE.

Definition download_imgreads : M string :=
  let* _ := ensure_file IMG_READ_FILE in read_text IMG_READ_FILE.

(** *** Requests, one after the other *)

Inductive call :=
| ApiImg (email : string) (image message_id : option string) (request : option request)
| ApiClick (email redirect : string) (message_id : option string) (request : option request)
| TrackingByEmail (email : string)
| TrackingLatest (n : option Z)
| DownloadLogs
| DownloadImgreads
| ApiTest.

(** The state a request leaves; a request that raises answers 500 and
    leaves what it had written. *)
Definition handle (c : call) (w : world) : world :=
  match c with
  | ApiImg email image message_id request =>
      exec (api_img email image message_id request) w
  | ApiClick email redirect message_id request =>
      exec (api_click email redirect message_id request) w
  | TrackingByEmail email => exec (tracking_by_email email) w
  | TrackingLatest n => exec (tracking_latest n) w
  | DownloadLogs => exec download_logs w
  | DownloadImgreads => exec download_imgreads w
  | ApiTest => w
  end.

Definition run (cs : list call) (w : world) : world := foldl (λ w c, handle c w) w cs.

End program.

(** ** An implementation of the library code

    [Std] reads and writes JSON the way [json] does, with two limits on
    what it reads: a fraction or an exponent makes a number a [JFloat] kept
    as its lexeme, and an escaped surrogate is refused. *)

Module Std.

Definition quote : ascii := ascii_of_N 34.
Definition backslash : ascii := ascii_of_N 92.

Definition hex_char (n : N) : ascii :=
  ascii_of_N (if (n <? 10)%N then 48 + n else 87 + n).

(** [ESCAPE_DCT] of [json.encoder], for [ensure_ascii=False]. *)
Definition escape_char (c : ascii) : string :=
  let n := Text.code c in
  if (n =? 34)%N then String backslash (String quote "")
  else if (n =? 92)%N then String backslash (String backslash "")
  else if (n =? 10)%N then String backslash "n"
  else if (n =? 13)%N then String backslash "r"
  else if (n =? 9)%N then String backslash "t"
  else if (n =? 8)%N then String backslash "b"
  else if (n =? 12)%N then String backslash "f"
  else if (n <? 32)%N then
    String backslash (String "u" (String "0" (String "0"
      (String (hex_char (n / 16)) (String (hex_char (n mod 16)) "")))))
  else String c "".

Fixpoint escape (s : string) : string :=
  match s with
  | "" => ""
  | String c r => escape_char c +:+ escape r
  end.

Definition dump_str (s : string) : string :=
  String quote (escape s +:+ String quote "").

Fixpoint join (sep : string) (l : list string) : string :=
  match l with
  | [] => ""
  | [x] => x
  | x :: l => x +:+ sep +:+ join sep l
  end.

Definition dump_int (n : Z) : string :=
  DecimalString.NilZero.string_of_int (Z.to_int n).

(** [json.dumps]; the keys of a dictionary come in the order of the map. *)
Fixpoint dumps (v : json) : string :=
  match v with
  | JNull => "null"
  | JBool b => if b then "true" else "false"
  | JInt n => dump_int n
  | JFloat lexeme => lexeme
  | JStr s => dump_str s
  | JList l => "[" +:+ join ", " (dumps <$> l) +:+ "]"
  | JDict d =>
      "{" +:+ join ", " (map_fold (λ k v acc, (dump_str k +:+ ": " +:+ dumps v) :: acc) [] d)
      +:+ "}"
  end.

(** A member of an object, as [dumps] prints it. *)
Definition member (kv : string * json) : string :=
  dump_str kv.1 +:+ ": " +:+ dumps kv.2.

(** *** Reading *)

Definition json_ws (c : ascii) : bool :=
  let n := Text.code c in ((n =? 32) || (n =? 9) || (n =? 10) || (n =? 13))%N.

Fixpoint skip_ws (s : string) : string :=
  match s with
  | String c r => if json_ws c then skip_ws r else s
  | "" => ""
  end.

Definition hex_value (c : ascii) : option N :=
  let n := Text.code c in
  if ((48 <=? n) && (n <=? 57))%N then Some (n - 48)%N
  else if ((97 <=? n) && (n <=? 102))%N then Some (n - 87)%N
  else if ((65 <=? n) && (n <=? 70))%N then Some (n - 55)%N
  else None.

(** The UTF-8 encoding of a code point below U+10000 that is no surrogate. *)
Definition utf8 (cp : N) : option string :=
  if (cp <? 128)%N then Some (String (ascii_of_N cp) "")
  else if (cp <? 2048)%N then
    Some (String (ascii_of_N (192 + cp / 64)) (String (ascii_of_N (128 + cp mod 64)) ""))
  else if ((55296 <=? cp) && (cp <=? 57343))%N then None
  else
    Some (String (ascii_of_N (224 + cp / 4096))
           (String (ascii_of_N (128 + (cp / 64) mod 64))
             (String (ascii_of_N (128 + cp mod 64)) ""))).

Definition unescape (e : ascii) : option ascii :=
  let n := Text.code e in
  if (n =? 34)%N then Some quote
  else if (n =? 92)%N then Some backslash
  else if (n =? 47)%N then Some "/"%char
  else if (n =? 110)%N then Some Text.LF
  else if (n =? 114)%N then Some Text.CR
  else if (n =? 116)%N then Some (ascii_of_N 9)
  else if (n =? 98)%N then Some (ascii_of_N 8)
  else if (n =? 102)%N then Some (ascii_of_N 12)
  else None.

(** A string literal, after its opening quote: the text and what follows
    the closing quote. *)
Fixpoint read_str (s : string) : option (string * string) :=
  match s with
  | "" => None
  | String c r =>
      if bool_decide (c = quote) then Some ("", r)
      else if bool_decide (c = backslash) then
        match r with
        | String e r1 =>
            if bool_decide (e = "u"%char) then
              match r1 with
              | String h1 (String h2 (String h3 (String h4 r2))) =>
                  a ← hex_value h1; b ← hex_value h2;
                  c ← hex_value h3; d ← hex_value h4;
                  u ← utf8 (4096 * a + 256 * b + 16 * c + d)%N;
                  '(t, rest) ← read_str r2;
                  Some (u +:+ t, rest)
              | _ => None
              end
            else
              x ← unescape e;
              '(t, rest) ← read_str r1;
              Some (String x t, rest)
        | "" => None
        end
      else if (Text.code c <? 32)%N then None
      else '(t, rest) ← read_str r; Some (String c t, rest)
  end.

Definition is_digit (c : ascii) : bool :=
  let n := Text.code c in ((48 <=? n) && (n <=? 57))%N.

Fixpoint span (p : ascii → bool) (s : string) : string * string :=
  match s with
  | String c r =>
      if p c then let '(a, b) := span p r in (String c a, b) else ("", s)
  | "" => ("", "")
  end.

Fixpoint decimal (acc : Z) (s : string) : Z :=
  match s with
  | "" => acc
  | String c r => decimal (10 * acc + Z.of_N (Text.code c - 48)) r
  end.

(** [-?digits], then a fraction or an exponent if any. *)
Definition read_number (s : string) : option (json * string) :=
  let '(sign, r) :=
    match s with
    | String "-" r => ("-", r)
    | _ => ("", s)
    end in
  let '(ds, r) := span is_digit r in
  if bool_decide (ds = "") then None
  else
    let '(more, r') :=
      span (λ c, is_digit c || bool_decide (c ∈ ["."; "e"; "E"; "+"; "-"]%char)) r in
    if bool_decide (more = "") then
      Some (JInt (if bool_decide (sign = "") then decimal 0 ds else - decimal 0 ds), r)
    else Some (JFloat (sign +:+ ds +:+ more), r').

Definition dict_of (l : list (string * json)) : gmap string json :=
  foldl (λ m kv, <[kv.1 := kv.2]> m) ∅ l.

(** The members of an object and the elements of an array, the value
    parser being given. *)
Fixpoint members (value : string → option (json * string)) (fuel : nat) (s : string)
    : option (list (string * json) * string) :=
  match fuel with
  | O => None
  | S fuel =>
      match skip_ws s with
      | String q r =>
          if bool_decide (q = quote) then
            '(k, r) ← read_str r;
            match skip_ws r with
            | String ":" r =>
                '(v, r) ← value r;
                match skip_ws r with
                | String "," r =>
                    '(l, r) ← members value fuel r; Some ((k, v) :: l, r)
                | String "}" r => Some ([(k, v)], r)
                | _ => None
                end
            | _ => None
            end
          else None
      | "" => None
      end
  end.

Fixpoint elements (value : string → option (json * string)) (fuel : nat) (s : string)
    : option (list json * string) :=
  match fuel with
  | O => None
  | S fuel =>
      '(v, r) ← value s;
      match skip_ws r with
      | String "," r => '(l, r) ← elements value fuel r; Some (v :: l, r)
      | String "]" r => Some ([v], r)
      | _ => None
      end
  end.

Fixpoint read_value (depth : nat) (s : string) : option (json * string) :=
  match depth with
  | O => None
  | S depth =>
      match skip_ws s with
      | String c r =>
          if bool_decide (c = quote) then '(t, r) ← read_str r; Some (JStr t, r)
          else if bool_decide (c = "{"%char) then
            match skip_ws r with
            | String "}" r => Some (JDict ∅, r)
            | _ => '(l, r) ← members (read_value depth) (String.length r) r;
                   Some (JDict (dict_of l), r)
            end
          else if bool_decide (c = "["%char) then
            match skip_ws r with
            | String "]" r => Some (JList [], r)
            | _ => '(l, r) ← elements (read_value depth) (String.length r) r;
                   Some (JList l, r)
            end
          else if Text.startswith "null" (String c r) then Some (JNull, Text.drop 3 r)
          else if Text.startswith "true" (String c r) then Some (JBool true, Text.drop 3 r)
          else if Text.startswith "false" (String c r) then Some (JBool false, Text.drop 4 r)
          else read_number (String c r)
      | "" => None
      end
  end.

Definition loads (s : string) : option json :=
  match read_value (String.length s) s with
  | Some (v, r) => if bool_decide (skip_ws r = "") then Some v else None
  | None => None
  end.

(** *** [datetime] *)

Definition is_leap (y : Z) : bool :=
  (y mod 4 =? 0) && (negb (y mod 100 =? 0) || (y mod 400 =? 0)).

Definition days_before_year (y : Z) : Z :=
  let y := y - 1 in y * 365 + y / 4 - y / 100 + y / 400.

Definition DAYS_IN_MONTH : list Z := [-1; 31; 28; 31; 30; 31; 30; 31; 31; 30; 31; 30; 31].
Definition DAYS_BEFORE_MONTH : list Z :=
  [-1; 0; 31; 59; 90; 120; 151; 181; 212; 243; 273; 304; 334].

Definition at_month (table : list Z) (m : Z) : Z := nth (Z.to_nat m) table 0.

Definition days_in_month (y m : Z) : Z :=
  if (m =? 2) && is_leap y then 29 else at_month DAYS_IN_MONTH m.

Definition days_before_month (y m : Z) : Z :=
  at_month DAYS_BEFORE_MONTH m + (if (2 <? m) && is_leap y then 1 else 0).

Definition ymd2ord (y m d : Z) : Z :=
  days_before_year y + days_before_month y m + d.

(** The month and day of the [n]th day of a year, from 0. *)
Definition month_day (leapyear : bool) (n : Z) : Z * Z :=
  let month := (n + 50) / 32 in
  let preceding :=
    at_month DAYS_BEFORE_MONTH month + (if (2 <? month) && leapyear then 1 else 0) in
  if n <? preceding then
    let month := month - 1 in
    let preceding :=
      preceding - (at_month DAYS_IN_MONTH month
                   + (if (month =? 2) && leapyear then 1 else 0)) in
    (month, n - preceding + 1)
  else (month, n - preceding + 1).

(** [month_day] lands in the year: the check run over every day of it. *)
Definition month_day_ok (leapyear : bool) (r : Z) : bool :=
  let '(m, d) := month_day leapyear r in
  (1 <=? m) && (m <=? 12) && (1 <=? d)
  && (d <=? (if (m =? 2) && leapyear then 29 else at_month DAYS_IN_MONTH m))
  && (at_month DAYS_BEFORE_MONTH m + (if (2 <? m) && leapyear then 1 else 0) + d =? r + 1).

Definition ord2ymd (n : Z) : Z * Z * Z :=
  let n := n - 1 in
  let n400 := n / 146097 in let n := n mod 146097 in
  let year := n400 * 400 + 1 in
  let n100 := n / 36524 in let n := n mod 36524 in
  let n4 := n / 1461 in let n := n mod 1461 in
  let n1 := n / 365 in let n := n mod 365 in
  let year := year + n100 * 100 + n4 * 4 + n1 in
  if (n1 =? 4) || (n100 =? 4) then (year - 1, 12, 31)
  else
    let leapyear := (n1 =? 3) && (negb (n4 =? 24) || (n100 =? 3)) in
    let '(month, day) := month_day leapyear n in
    (year, month, day).

(** [v] on [n] digits, as [%0nd]. *)
Fixpoint digits (n : nat) (v : Z) : string :=
  match n with
  | O => ""
  | S n =>
      let p := 10 ^ Z.of_nat n in
      String (ascii_of_N (48 + Z.to_N (v / p))) (digits n (v mod p))
  end.

Definition to_date (t : Z) : Iso.date :=
  let '(y, m, d) := ord2ymd (t / DAY_US + 1) in Iso.Date y m d.

Definition to_time (t : Z) : Iso.time :=
  let us := t mod DAY_US in
  Iso.Time (us / 3600000000) (us / 60000000 mod 60) (us / 1000000 mod 60)
    (us mod 1000000).

Definition format_date (d : Iso.date) : string :=
  digits 4 (Iso.year d) +:+ "-" +:+ digits 2 (Iso.month d) +:+ "-"
  +:+ digits 2 (Iso.day d).

Definition format_time (t : Iso.time) : string :=
  digits 2 (Iso.hour t) +:+ ":" +:+ digits 2 (Iso.minute t) +:+ ":"
  +:+ digits 2 (Iso.second t)
  +:+ (if Iso.microsecond t =? 0 then "" else "." +:+ digits 6 (Iso.microsecond t)).

Definition isoformat (t : Z) : string :=
  format_date (to_date t) +:+ "T" +:+ format_time (to_time t).

Definition valid_date (d : Iso.date) : bool :=
  (1 <=? Iso.year d) && (1 <=? Iso.month d) && (Iso.month d <=? 12)
  && (1 <=? Iso.day d) && (Iso.day d <=? days_in_month (Iso.year d) (Iso.month d)).

Definition of_fields (d : Iso.date) (t : Iso.time) : Z :=
  (ymd2ord (Iso.year d) (Iso.month d) (Iso.day d) - 1) * DAY_US
  + Iso.hour t * 3600000000 + Iso.minute t * 60000000
  + Iso.second t * 1000000 + Iso.microsecond t.

Definition midnight : Iso.time := Iso.Time 0 0 0 0.

(** [+HH:MM] or [-HH:MM], in microseconds. *)
Definition read_offset (s : string) : option Z :=
  match s with
  | String c r =>
      sign ← (if bool_decide (c = "+"%char) then Some 1
              else if bool_decide (c = "-"%char) then Some (-1) else None);
      '(h, r) ← Iso.number 2 0 r; r ← Iso.expect (Iso.only ":") r;
      '(m, r) ← Iso.number 2 0 r;
      if bool_decide (r = "") && (h <=? 23) && (m <=? 59)
      then Some (sign * minutes_us (h * 60 + m)) else None
  | "" => None
  end.

(** [datetime.fromisoformat]: a date, then after any separator a time,
    then an offset if any. *)
Definition fromisoformat (s : string) : option datetime :=
  '(d, s) ← Iso.read_date s;
  if negb (valid_date d) then None
  else
    match s with
    | "" => Some (Naive (of_fields d midnight))
    | String _ s =>
        '(t, s) ← Iso.read_time s;
        if negb (Iso.time_in_range t) then None
        else
          match s with
          | "" => Some (Naive (of_fields d t))
          | _ => off ← read_offset s; Some (Aware (of_fields d t) off)
          end
    end.

(** *** [urllib.parse.unquote_plus] and [mimetypes.guess_type] *)

(** [+] is a space and [%XX] a byte; a [%] without two hexadecimal digits
    stays. *)
Fixpoint unquote_plus (s : string) : string :=
  match s with
  | "" => ""
  | String c r =>
      if bool_decide (c = "%"%char) then
        match r with
        | String h1 (String h2 r2) =>
            match hex_value h1, hex_value h2 with
            | Some a, Some b => String (ascii_of_N (16 * a + b)) (unquote_plus r2)
            | _, _ => String c (unquote_plus r)
            end
        | _ => String c (unquote_plus r)
        end
      else String (if bool_decide (c = "+"%char) then " "%char else c) (unquote_plus r)
  end.

Definition lower (c : ascii) : ascii :=
  let n := Text.code c in
  if ((65 <=? n) && (n <=? 90))%N then ascii_of_N (n + 32) else c.

Fixpoint lowercase (s : string) : string :=
  match s with
  | "" => ""
  | String c r => String (lower c) (lowercase r)
  end.

(** [posixpath.splitext(p)[1]] in lower case. *)
Definition extension (p : string) : string :=
  let b := Path.basename p in
  let i := Text.rfind "." b in
  if i <=? 0 then "" else lowercase (Text.drop (Z.to_nat i) b).

Definition types_map : list (string * string) :=
  [(".png", "image/png"); (".jpg", "image/jpeg"); (".jpeg", "image/jpeg");
   (".jpe", "image/jpeg"); (".gif", "image/gif"); (".webp", "image/webp");
   (".bmp", "image/bmp"); (".svg", "image/svg+xml"); (".txt", "text/plain");
   (".html", "text/html"); (".json", "application/json"); (".pdf", "application/pdf")].

Definition guess_type (p : string) : option string :=
  (λ e, e.2.2) <$> list_find (λ e, e.1 = extension p) types_map.

Definition platform : Platform :=
  Build_Platform dumps loads isoformat fromisoformat guess_type unquote_plus.

End Std.

(** ** What an action changes *)

(** [w'] differs from [w] at most in the text appended to [path], in the
    directories and in the number of clock readings. *)
Definition wrote (path text : string) (w w' : world) : Prop :=
  content w' path = content w path +:+ text
  ∧ (∀ q, q ≠ path → content w' q = content w q)
  ∧ clock w' = clock w ∧ net w' = net w ∧ uploads w' = uploads w.

Definition kept (w w' : world) : Prop :=
  (∀ q, content w' q = content w q)
  ∧ clock w' = clock w ∧ net w' = net w ∧ uploads w' = uploads w.

(** The same world with another upload directory. *)
Definition with_uploads (u : gmap string upload) (w : world) : world :=
  World (files w) (dirs w) u (net w) (clock w) (ticks w).

(** ** A deployment to run the handlers on *)

Module Demo.

(** 2024-01-01T12:00:00, and one second between two readings of the clock,
    for a day. *)
Definition T0 : Z := Std.of_fields (Iso.Date 2024 1 1) (Iso.Time 12 0 0 0).

Definition clock (i : nat) : Z := T0 + Z.min (Z.of_nat i) 86400 * 1000000.

Definition uploads : gmap string upload :=
  <["./uploads/photo.png" := File "PNG"]> (
  <["./uploads/locked.png" := Unreadable "Permission denied"]> ∅).

Definition net (url : string) : fetch :=
  if bool_decide (url = "http://example.com/pic.jpg") then FetchError "timed out"
  else if bool_decide (url = "http://example.com/gone.jpg")
  then Reply 404 None (Body "not found")
  else if bool_decide (url = "https://example.com/cut.png")
  then Reply 200 (Some "image/png") (BodyError "connection broken")
  else Reply 200 (Some "image/png") (Body "PNG").

(** No log file yet. *)
Definition fresh : world := World ∅ ∅ uploads net clock 0.

Definition browser : option request :=
  Some (Request (Some "Mozilla/5.0") (Some "203.0.113.7")).

End Demo.

(** ** The query endpoints *)




(** ** A log file, line by line *)

(** A line of a log file: its text, and the record it parses to if any. *)
Inductive entry :=
| Valid (text : string) (v : json)
| Malformed (text : string).

Definition entry_text (e : entry) : string :=
  match e with Valid t _ | Malformed t => t end.

(** The text holds no line break; it parses to [v], or it is blank or
    [json.loads] raises on it. *)
Definition entry_ok `{P : Platform} (e : entry) : Prop :=
  Text.mem Text.LF (entry_text e) = false ∧ Text.mem Text.CR (entry_text e) = false
  ∧ match e with
    | Valid t v => Text.strip t ≠ "" ∧ loads (Text.strip t) = Some v
    | Malformed t => Text.strip t = "" ∨ loads (Text.strip t) = None
    end.

Definition text_of (es : list entry) : string :=
  foldr (λ e s, (entry_text e +:+ Text.nl) +:+ s) "" es.

Definition valid_records (es : list entry) : list json :=
  omap (λ e, match e with Valid _ v => Some v | Malformed _ => None end) es.

(** ** Appending records *)



(** The text of the lines of [ds]. *)
Definition lines `{P : Platform} (ds : list (gmap string json)) : string :=
  foldr (λ d s, line d +:+ s) "" ds.




(** ** The image resolver and its log *)

(** What the specification says of a call with an image reference: one
    record more in the image-read log. *)
Definition logs_one_image_read `{P : Platform} (email : string)
    (image_param message_id : option string) (w : world) : Prop :=
  ∃ ev, content (exec (resolve email image_param message_id) w) IMG_READ_FILE
        = content w IMG_READ_FILE +:+ line ev.

(** ** The dedup guard and the primary log *)

Definition is_dict (v : json) : Prop :=
  match v with JDict _ => True | _ => False end.

(** The time of a stored record, as the guard reads it. *)
Definition time_of `{P : Platform} (v : json) : option Z :=
  match v with
  | JDict d =>
      match d !! "time" with
      | Some (JStr s) =>
          match fromisoformat (Text.remove "Z" s) with
          | Some (Naive t) => Some t
          | _ => None
          end
      | _ => None
      end
  | _ => None
  end.

(** The primary log as the program leaves it: whole lines, of dictionaries. *)
Definition log_ok `{P : Platform} (w : world) : Prop :=
  Text.closed (content w LOG_FILE) = true ∧ Forall is_dict (records w LOG_FILE).

(** A record that suppresses an open of [email], [message_id] at [cutoff]. *)
Definition suppresses `{P : Platform} (email : string) (message_id : option string)
    (cutoff : Z) (v : json) : Prop :=
  ∃ d t, v = JDict d
         ∧ d !! "type" = Some (JStr "pixel_open")
         ∧ d !! "email" = Some (JStr email)
         ∧ match message_id with
           | Some m => d !! "message_id" = Some (JStr m)
           | None => d !! "message_id" = None ∨ d !! "message_id" = Some JNull
           end
         ∧ time_of v = Some t ∧ cutoff <= t.

(** The clock never runs backwards and stays in the range of [datetime]. *)
Definition steady (clock : nat → Z) : Prop :=
  (∀ i, is_datetime (clock i)) ∧ (∀ i j, (i ≤ j)%nat → clock i <= clock j).

(** ** One request and the primary log *)

(** What a request does to the primary log: nothing, or one line more,
    stamped with a reading of the clock taken during the request. *)
Definition log_step `{P : Platform} (w w' : world) : Prop :=
  clock w' = clock w ∧ (ticks w ≤ ticks w')%nat
  ∧ (content w' LOG_FILE = content w LOG_FILE
     ∨ ∃ d i, plain d ∧ (ticks w ≤ i < ticks w')%nat
              ∧ content w' LOG_FILE
                = content w LOG_FILE
                  +:+ line (<["time" := JStr (isoformat (clock w i) +:+ "Z")]> d)).

(** The times of the stored records, in the order of the file. *)
Definition stored_at `{P : Platform} (r : json) (t : Z) : Prop :=
  ∃ d, r = JDict d ∧ d !! "time" = Some (JStr (isoformat t +:+ "Z"))
       ∧ time_of r = Some t.

Definition stored_times `{P : Platform} (w : world) (ts : list Z) : Prop :=
  Forall2 stored_at (records w LOG_FILE) ts.

(** The primary log holds whole lines of dictionaries whose times never
    decrease and lie at or before the next reading of the clock. *)
Definition log_inv `{P : Platform} (w : world) : Prop :=
  Text.closed (content w LOG_FILE) = true
  ∧ ∃ ts, stored_times w ts ∧ StronglySorted Z.le ts ∧ Forall (λ t, t <= now w) ts.

(** The record [api_img] stores for an open, stamped at [t]. *)
Definition stored_open `{P : Platform} (email : string) (image message_id : option string)
    (rq : option request) (t : Z) : gmap string json :=
  <["time" := JStr (isoformat t +:+ "Z")]>
    (pixel_event email (decode_image image) message_id rq).

(** ** Sample data *)

(** A deployment where [a@x.com] opened message [m1] a moment ago. *)
Definition opened_once : world :=
  exec (api_img (P := Std.platform) "a@x.com" None (Some "m1") Demo.browser) Demo.fresh.

(** A log with a blank line and two lines that are not JSON between
    three records. *)
Definition mixed : list entry :=
  [Valid (Std.dumps (JDict (click_event "a@x.com" "https://example.com/1" None
                              (Request None None))))
     (JDict (click_event "a@x.com" "https://example.com/1" None (Request None None)));
   Malformed "{oops";
   Malformed "  ";
   Valid ("  " +:+ Std.dumps (JDict (local_ok "a@x.com" None "photo.png")) +:+ " ")
     (JDict (local_ok "a@x.com" None "photo.png"));
   Malformed "not json";
   Valid "42" (JInt 42)].

Definition mixed_log : world :=
  World (<[LOG_FILE := text_of mixed]> ∅) ∅ ∅ Demo.net Demo.clock 0.

(** The log [mixed_log] with, for its second line, two bytes that are not
    UTF-8. *)
Definition garbled : string :=
  (Std.dumps (JDict (click_event "a@x.com" "https://example.com/1" None
                       (Request None None))) +:+ Text.nl)
  +:+ String (ascii_of_N 255) (String (ascii_of_N 254) Text.nl)
  +:+ text_of (drop 2 mixed).

Definition garbled_log : world :=
  World (<[LOG_FILE := garbled]> ∅) ∅ ∅ Demo.net Demo.clock 0.


(** A morning of requests. *)
Definition morning : list call :=
  [ApiImg "a@x.com" (Some "photo.png") (Some "m1") Demo.browser;
   ApiClick "a@x.com" "https://example.com/1" (Some "m1") Demo.browser;
   ApiImg "a@x.com" (Some "photo.png") (Some "m1") Demo.browser;
   TrackingLatest None;
   ApiImg "b@x.com" (Some "http%3A%2F%2Fexample.com%2Fpic.jpg") None None].

(** ** Line endings *)

(** How a line of a log file ends: as written by [append_event], or as an
    editor on another system leaves it. *)
Inductive ending :=
| Unix
| Dos
| OldMac.

Definition ending_text (t : ending) : string :=
  match t with
  | Unix => Text.nl
  | Dos => String Text.CR Text.nl
  | OldMac => String Text.CR ""
  end.

(** The text of the lines [es], each with its ending, followed by a last
    line [last] that has none. *)
Definition text_with (es : list (entry * ending)) (last : string) : string :=
  foldr (λ et s, (entry_text et.1 +:+ ending_text et.2) +:+ s) last es.

(** A log saved with other line endings, whose last line is cut short of
    its newline. *)
Definition edited : list (entry * ending) :=
  [(Valid (Std.dumps (JDict (local_ok "a@x.com" None "photo.png")))
      (JDict (local_ok "a@x.com" None "photo.png")), Dos);
   (Malformed "{oops", OldMac);
   (Malformed "", Unix);
   (Valid "[1, 2]" (JList [JInt 1; JInt 2]), OldMac)].

Definition edited_log : world :=
  World (<[LOG_FILE := text_with edited "42"]> ∅) ∅ ∅ Demo.net Demo.clock 0.

(** The record of the [i]-th of several clicks in a row. *)
Definition nth_click `{P : Platform} (email redirect : string) (message_id : option string)
    (rq : request) (clock : nat → Z) (tick i : nat) : json :=
  JDict (<["time" := JStr (isoformat (clock (tick + i)%nat) +:+ "Z")]>
           (click_event email redirect message_id rq)).

(** ** A slow clock *)



(** ** What the queries select *)

(** [x.get("type") == ty and x.get("email") == email], on any record. *)
Definition of_type (ty email : string) (v : json) : bool :=
  match v with
  | JDict d => eq_str (d !! "type") ty && eq_str (d !! "email") email
  | _ => false
  end.

(** [x.get("email") == email], on any record. *)
Definition of_email (email : string) (v : json) : bool :=
  match v with
  | JDict d => eq_str (d !! "email") email
  | _ => false
  end.

(** The requests that only read. *)
Definition is_query (c : call) : bool :=
  match c with
  | ApiImg _ _ _ _ | ApiClick _ _ _ _ => false
  | TrackingByEmail _ | TrackingLatest _ | DownloadLogs | DownloadImgreads | ApiTest => true
  end.

(** ** What the handlers leave of a state *)

(** From [w] to [w'] the two logs have grown at their ends, and nothing
    else has changed but the number of clock readings. *)
Definition grows (w w' : world) : Prop :=
  (∃ more, content w' LOG_FILE = content w LOG_FILE +:+ more)
  ∧ (∃ more, content w' IMG_READ_FILE = content w IMG_READ_FILE +:+ more)
  ∧ (∀ q, q ≠ LOG_FILE → q ≠ IMG_READ_FILE → content w' q = content w q)
  ∧ clock w' = clock w ∧ net w' = net w ∧ uploads w' = uploads w
  ∧ (ticks w ≤ ticks w')%nat.

(** Requests of every kind, two of which raise. *)
Definition busy_day : list call :=
  [ApiImg "a@x.com" (Some "photo.png") (Some "m1") Demo.browser;
   ApiClick "a@x.com" "https://example.com/1" (Some "m1") None;
   ApiImg "a@x.com" (Some "https%3A%2F%2Fexample.com%2Fcut.png") (Some "m1") Demo.browser;
   TrackingByEmail "a@x.com";
   ApiImg "b@x.com" (Some "..%2F..%2Fetc%2Fpasswd") None None;
   DownloadLogs;
   ApiClick "b@x.com" "https://example.com/2" None Demo.browser;
   TrackingLatest (Some (-3));
   DownloadImgreads;
   ApiTest].

(** ** One line more in a log *)

(** From [w] to [w'] the log at [path] is as it was, or has one line more:
    a record of strings stamped with a reading of the clock taken in
    between. *)
Definition line_step `{P : Platform} (path : string) (w w' : world) : Prop :=
  clock w' = clock w ∧ (ticks w ≤ ticks w')%nat
  ∧ (content w' path = content w path
     ∨ ∃ d i, plain d ∧ (ticks w ≤ i < ticks w')%nat
              ∧ content w' path
                = content w path
                  +:+ line (<["time" := JStr (isoformat (clock w i) +:+ "Z")]> d)).


(** The same, with times that never decrease and lie at or before the next
    reading of the clock. *)
Definition timed `{P : Platform} (path : string) (w : world) : Prop :=
  Text.closed (content w path) = true
  ∧ ∃ ts, Forall2 stored_at (records w path) ts ∧ StronglySorted Z.le ts
          ∧ Forall (λ t, t <= now w) ts.

(** The log at [path] is the lines of the records [ds], and nothing else. *)
Definition lined `{P : Platform} (path : string) (w : world)
    (ds : list (gmap string json)) : Prop :=
  Forall plain ds ∧ content w path = lines ds.

(** * Properties *)

(** ** Text *)

Section text_facts.
Import Text.

Lemma str_app_cons (c : ascii) (s1 s2 : string) :
  String c s1 +:+ s2 = String c (s1 +:+ s2).
Proof. done. Qed.

Lemma str_app_nil_l (s : string) : "" +:+ s = s.
Proof. done. Qed.

Lemma str_app_nil_r (s : string) : s +:+ "" = s.
Proof. induction s as [|c s IH]; [done|]. by rewrite str_app_cons, IH. Qed.

Lemma str_app_assoc (s1 s2 s3 : string) : (s1 +:+ s2) +:+ s3 = s1 +:+ s2 +:+ s3.
Proof. induction s1 as [|c s1 IH]; [done|]. by rewrite !str_app_cons, IH. Qed.

Lemma str_app_snoc (s1 s2 : string) (c : ascii) :
  (s1 +:+ String c "") +:+ s2 = s1 +:+ String c s2.
Proof. by rewrite str_app_assoc. Qed.

Lemma str_app_eq_nil (s1 s2 : string) : s1 +:+ s2 = "" → s1 = "" ∧ s2 = "".
Proof. destruct s1; [done|]. by rewrite str_app_cons. Qed.

Lemma str_length_app (s1 s2 : string) :
  String.length (s1 +:+ s2) = (String.length s1 + String.length s2)%nat.
Proof. induction s1 as [|c s1 IH]; [done|]. rewrite str_app_cons. simpl. by rewrite IH. Qed.

Lemma str_take_app_length (s1 s2 : string) : take (String.length s1) (s1 +:+ s2) = s1.
Proof.
  induction s1 as [|c s1 IH]; [by destruct s2|].
  rewrite str_app_cons. simpl. by rewrite IH.
Qed.

Lemma str_drop_app_length (s1 s2 : string) : drop (String.length s1) (s1 +:+ s2) = s2.
Proof. induction s1 as [|c s1 IH]; [by destruct s2|]. by rewrite str_app_cons. Qed.

Lemma str_take_drop (n : nat) (s : string) : take n s +:+ drop n s = s.
Proof.
  revert s. induction n as [|n IH]; intros [|c s]; try done.
  simpl. by rewrite str_app_cons, IH.
Qed.

Lemma str_mem_app (c : ascii) (s1 s2 : string) : mem c (s1 +:+ s2) = mem c s1 || mem c s2.
Proof.
  induction s1 as [|a s1 IH]; [done|].
  rewrite str_app_cons. simpl. rewrite IH. by destruct (bool_decide (a = c)).
Qed.

(** *** [readlines] *)

Lemma readlines_go_line (cur body : string) :
  mem LF body = false → mem CR body = false →
  readlines_go false cur (body +:+ nl) = [cur +:+ body +:+ nl].
Proof.
  revert cur. induction body as [|c body IH]; intros cur HLF HCR; [done|].
  simpl in HLF, HCR. apply orb_false_iff in HLF as [HLF1 HLF2].
  apply orb_false_iff in HCR as [HCR1 HCR2].
  rewrite str_app_cons. simpl. rewrite HLF1, HCR1.
  rewrite IH by done. by rewrite str_app_snoc.
Qed.

Lemma readlines_go_app (b : bool) (cur a s : string) :
  (b = true → cur = "") →
  readlines_go b cur ((a +:+ nl) +:+ s) = readlines_go b cur (a +:+ nl) ++ readlines s.
Proof.
  revert b cur. induction a as [|c a IH]; intros b cur Hb.
  - rewrite str_app_nil_l. unfold nl. rewrite str_app_cons, str_app_nil_l. simpl.
    destruct b; [by rewrite Hb|done].
  - rewrite !str_app_cons. simpl.
    destruct (bool_decide (c = LF)); [destruct b|destruct (bool_decide (c = CR))];
      by rewrite ?IH by done.
Qed.

(** A file is [closed] when its last line, if any, ends with a newline. *)
Lemma closed_inv (s : string) : closed s = true → s = "" ∨ ∃ a, s = a +:+ nl.
Proof.
  induction s as [|c s IH]; [by left|]. intros H. right.
  destruct s as [|c' s].
  - simpl in H. apply bool_decide_eq_true in H as ->. by exists "".
  - destruct IH as [|[a ->]]; [done..|]. by exists (String c a).
Qed.

Lemma closed_app_nl (s : string) : closed (s +:+ nl) = true.
Proof.
  induction s as [|c s IH]; [done|].
  rewrite str_app_cons. simpl. rewrite IH.
  destruct (s +:+ nl) eqn:E; [|done]. by apply str_app_eq_nil in E as [_ ?].
Qed.

Lemma readlines_app (a s : string) :
  closed a = true → readlines (a +:+ s) = readlines a ++ readlines s.
Proof.
  intros [->|[a' ->]]%closed_inv; [done|].
  by apply readlines_go_app.
Qed.

Lemma readlines_snoc (a body : string) :
  closed a = true → mem LF body = false → mem CR body = false →
  readlines (a +:+ body +:+ nl) = readlines a ++ [body +:+ nl].
Proof.
  intros Ha HLF HCR. rewrite readlines_app by done.
  unfold readlines at 2. by rewrite readlines_go_line.
Qed.

(** *** [strip] *)

Lemma isspace2_LF (c : ascii) : isspace2 c LF = false.
Proof. unfold isspace2. change (code LF) with 10%N. simpl. apply andb_false_r. Qed.

Lemma isspace3_LF (c1 c2 : ascii) : isspace3 c1 c2 LF = false.
Proof.
  unfold isspace3. change (code LF) with 10%N. simpl.
  by rewrite !andb_false_r.
Qed.

Lemma lstrip_1 (c1 : ascii) (r : string) :
  isspace1 c1 = true → lstrip (String c1 r) = lstrip r.
Proof. intros H. simpl. by rewrite H. Qed.

Lemma lstrip_2 (c1 c2 : ascii) (r : string) :
  isspace1 c1 = false → isspace2 c1 c2 = true →
  lstrip (String c1 (String c2 r)) = lstrip r.
Proof. intros H1 H2. simpl. by rewrite H1, H2. Qed.

Lemma lstrip_3 (c1 c2 c3 : ascii) (r : string) :
  isspace1 c1 = false → isspace2 c1 c2 = false → isspace3 c1 c2 c3 = true →
  lstrip (String c1 (String c2 (String c3 r))) = lstrip r.
Proof. intros H1 H2 H3. simpl. by rewrite H1, H2, H3. Qed.

Lemma blank_app_nl_aux (n : nat) (s : string) :
  (String.length s ≤ n)%nat →
  lstrip (s +:+ nl) = if blank s then "" else lstrip s +:+ nl.
Proof.
  revert s. induction n as [|n IH]; intros s Hn.
  { destruct s; [done|simpl in Hn; lia]. }
  destruct s as [|c1 r1]; [done|]. simpl in Hn.
  destruct (isspace1 c1) eqn:H1.
  { unfold blank. rewrite str_app_cons, !lstrip_1 by done. apply IH. lia. }
  destruct r1 as [|c2 r2].
  { unfold blank, nl. rewrite str_app_cons, str_app_nil_l. simpl.
    by rewrite H1, isspace2_LF. }
  simpl in Hn. destruct (isspace2 c1 c2) eqn:H2.
  { unfold blank. rewrite !str_app_cons, !lstrip_2 by done. apply IH. lia. }
  destruct r2 as [|c3 r3].
  { unfold blank, nl. rewrite !str_app_cons, str_app_nil_l. simpl.
    by rewrite H1, H2, isspace3_LF. }
  simpl in Hn. destruct (isspace3 c1 c2 c3) eqn:H3.
  { unfold blank. rewrite !str_app_cons, !lstrip_3 by done. apply IH. lia. }
  unfold blank. rewrite !str_app_cons. simpl. by rewrite H1, H2, H3.
Qed.

Lemma lstrip_app_nl (s : string) :
  lstrip (s +:+ nl) = if blank s then "" else lstrip s +:+ nl.
Proof. by apply (blank_app_nl_aux (String.length s)). Qed.

Lemma blank_app_nl (s : string) : blank (s +:+ nl) = blank s.
Proof.
  unfold blank at 1. rewrite lstrip_app_nl. destruct (blank s) eqn:E; [done|].
  apply bool_decide_eq_false. by intros [_ ?]%str_app_eq_nil.
Qed.

Lemma rstrip_app_nl (s : string) : rstrip (s +:+ nl) = rstrip s.
Proof.
  induction s as [|c s IH]; [done|].
  rewrite str_app_cons.
  change (rstrip (String c (s +:+ nl)))
    with (if blank (String c s +:+ nl) then "" else String c (rstrip (s +:+ nl))).
  by rewrite blank_app_nl, IH.
Qed.

Lemma strip_app_nl (s : string) : strip (s +:+ nl) = strip s.
Proof.
  unfold strip. rewrite lstrip_app_nl. unfold blank. case_bool_decide as E.
  - by rewrite E.
  - apply rstrip_app_nl.
Qed.

End text_facts.

(** ** The helpers, as state transformers *)

Lemma bind_ok {A B} (m : M A) (k : A → M B) (w w1 : world) (a : A) :
  m w = (Ok a, w1) → (let* x := m in k x) w = k a w1.
Proof. unfold bind. by intros ->. Qed.

Lemma bind_raise {A B} (m : M A) (k : A → M B) (w w1 : world) (e : exn) :
  m w = (Raise e, w1) → (let* x := m in k x) w = (Raise e, w1).
Proof. unfold bind. by intros ->. Qed.

Lemma kept_refl (w : world) : kept w w.
Proof. done. Qed.

Lemma kept_trans (w1 w2 w3 : world) : kept w1 w2 → kept w2 w3 → kept w1 w3.
Proof.
  intros (Ha&?&?&?) (Hb&?&?&?). repeat split; try congruence.
Qed.

Lemma wrote_kept (path text : string) (w1 w2 w3 : world) :
  kept w1 w2 → wrote path text w2 w3 → wrote path text w1 w3.
Proof.
  intros (Ha&?&?&?) (Hb&Hb'&?&?&?). repeat split; try congruence.
  intros q ?. rewrite Hb' by done. apply Ha.
Qed.

Lemma kept_wrote (path text : string) (w1 w2 w3 : world) :
  wrote path text w1 w2 → kept w2 w3 → wrote path text w1 w3.
Proof.
  intros (Ha&Ha'&?&?&?) (Hb&?&?&?). repeat split; try congruence.
  intros q ?. rewrite Hb. by apply Ha'.
Qed.

Lemma wrote_wrote (path t1 t2 : string) (w1 w2 w3 : world) :
  wrote path t1 w1 w2 → wrote path t2 w2 w3 → wrote path (t1 +:+ t2) w1 w3.
Proof.
  intros (Ha&Ha'&?&?&?) (Hb&Hb'&?&?&?). repeat split; try congruence.
  - by rewrite Hb, Ha, str_app_assoc.
  - intros q ?. rewrite Hb' by done. by apply Ha'.
Qed.

Lemma ensure_file_spec (path : string) (w : world) :
  ∃ w', ensure_file path w = (Ok (), w') ∧ kept w w' ∧ ticks w' = ticks w
        ∧ is_Some (files w' !! path) ∧ log_dir path ∈ dirs w'.
Proof.
  unfold ensure_file, bind, makedirs, path_exists, truncate, ret. simpl.
  destruct (files w !! path) as [c|] eqn:E.
  - rewrite bool_decide_eq_true_2 by done. simpl.
    eexists; split; [done|]. repeat split; simpl; [by rewrite E|set_solver].
  - rewrite bool_decide_eq_false_2 by (by intros [? ?]). simpl.
    eexists; split; [done|]. repeat split; simpl.
    + intros q. unfold content. simpl.
      destruct (decide (q = path)) as [->|]; [by rewrite lookup_insert_eq, E|].
      by rewrite lookup_insert_ne.
    + by rewrite lookup_insert_eq.
    + set_solver.
Qed.

Section helpers.
Context `{P : Platform}.

Lemma write_append_spec (path text : string) (w : world) :
  ∃ w', write_append path text w = (Ok (), w') ∧ wrote path text w w'
        ∧ ticks w' = ticks w ∧ is_Some (files w' !! path) ∧ dirs w' = dirs w.
Proof.
  eexists; split; [done|]. unfold wrote, content. simpl. repeat split.
  - by rewrite lookup_insert_eq.
  - intros q ?. by rewrite lookup_insert_ne.
  - by rewrite lookup_insert_eq.
Qed.

Lemma stamp_spec (obj : gmap string json) (w : world) :
  ∃ w', stamp obj w = (Ok (stamped w obj), w') ∧ kept w w'
        ∧ ticks w' = (ticks w + stamp_ticks obj)%nat ∧ dirs w' = dirs w
        ∧ files w' = files w.
Proof.
  unfold stamp, stamped, stamp_ticks. destruct (obj !! "time").
  - exists w. repeat split. lia.
  - exists (set_ticks S w). repeat split. simpl. lia.
Qed.

Lemma append_event_spec (path : string) (obj : gmap string json) (w : world) :
  ∃ w', append_event path obj w = (Ok (), w')
        ∧ wrote path (line (stamped w obj)) w w'
        ∧ ticks w' = (ticks w + stamp_ticks obj)%nat
        ∧ is_Some (files w' !! path) ∧ log_dir path ∈ dirs w'.
Proof.
  unfold append_event.
  destruct (stamp_spec obj w) as (w0 & H0 & Hk0 & Ht0 & _).
  destruct (ensure_file_spec path w0) as (w1 & H1 & Hk1 & Ht1 & _ & Hd1).
  destruct (write_append_spec path (line (stamped w obj)) w1)
    as (w2 & H2 & Hw & Ht2 & Hf & Hd2).
  exists w2. split.
  { erewrite bind_ok by done. erewrite bind_ok by done. done. }
  split; [|split; [lia|split; [done|by rewrite Hd2]]].
  eapply wrote_kept; [done|]. by eapply wrote_kept.
Qed.

Lemma read_jsonl_spec (path : string) (w : world) :
  ∃ w', read_jsonl path w = (Ok (records w path), w') ∧ kept w w'
        ∧ ticks w' = ticks w ∧ is_Some (files w' !! path).
Proof.
  unfold read_jsonl.
  destruct (ensure_file_spec path w) as (w1 & H1 & Hk & Ht & Hf & _).
  exists w1. split; [|done]. erewrite bind_ok by done.
  unfold bind, read_text, ret, records. destruct Hk as (Hc&_). by rewrite Hc.
Qed.

Lemma already_opened_recent_spec (email : string) (message_id : option string)
    (minutes : Z) (w : world) :
  ∃ w', already_opened_recent email message_id minutes w
        = (scan email message_id (now w - minutes_us minutes)
             (reverse (records w LOG_FILE)), w')
        ∧ kept w w' ∧ ticks w' = S (ticks w).
Proof.
  unfold already_opened_recent.
  destruct (read_jsonl_spec LOG_FILE w) as (w1 & H1 & Hk & Ht & _).
  exists (set_ticks S w1). split; [|split; [exact Hk|simpl; lia]].
  erewrite bind_ok by done. unfold bind, utcnow, lift, now.
  destruct Hk as (Hc&Hclk&Hn&Hu). by rewrite Hclk, Ht.
Qed.

End helpers.

(** ** Lines and records *)

Lemma plain_empty : plain ∅.
Proof. intros k v. by rewrite lookup_empty. Qed.

Lemma plain_insert (k : string) (v : json) (d : gmap string json) :
  scalar v → plain d → plain (<[k := v]> d).
Proof.
  intros Hv Hd k' v'. rewrite lookup_insert. case_decide; [|by apply Hd].
  by intros [= <-].
Qed.

Lemma plain_of_opt (o : option string) : scalar (of_opt o).
Proof. destruct o; [right|left]; eauto. Qed.

Lemma scalar_str (s : string) : scalar (JStr s).
Proof. right. by eexists. Qed.

Create HintDb plain.
#[local] Hint Resolve plain_empty plain_insert plain_of_opt scalar_str : plain.

Section lines.
Context `{P : Platform} {L : PlatformLaws P}.


Lemma line_no_break (d : gmap string json) :
  plain d → Text.mem Text.LF (dumps (JDict d)) = false
            ∧ Text.mem Text.CR (dumps (JDict d)) = false.
Proof. intros Hd. split; [by apply dumps_no_LF|by apply dumps_no_CR]. Qed.

Lemma parse_line_line (d : gmap string json) :
  plain d → parse_line (line d) = Some (JDict d).
Proof.
  intros Hd. unfold parse_line, line.
  rewrite strip_app_nl, dumps_stripped by done.
  rewrite bool_decide_eq_false_2 by (by apply dumps_nonempty).
  by apply loads_dumps.
Qed.

Lemma records_line (text : string) (d : gmap string json) :
  Text.closed text = true → plain d →
  omap parse_line (Text.readlines (text +:+ line d))
  = omap parse_line (Text.readlines text) ++ [JDict d].
Proof.
  intros Hc Hd. destruct (line_no_break d Hd) as [HLF HCR].
  unfold line. rewrite readlines_snoc by done.
  rewrite omap_app. simpl. fold (line d).
  by rewrite (parse_line_line d Hd).
Qed.

Lemma records_wrote (path : string) (d : gmap string json) (w w' : world) :
  Text.closed (content w path) = true → plain d → wrote path (line d) w w' →
  records w' path = records w path ++ [JDict d]
  ∧ Text.closed (content w' path) = true.
Proof.
  intros Hc Hd (Hw & _). unfold records. rewrite Hw. split.
  - by apply records_line.
  - unfold line. rewrite <-str_app_assoc. apply closed_app_nl.
Qed.

Lemma records_other (path q text : string) (w w' : world) :
  q ≠ path → wrote path text w w' → records w' q = records w q.
Proof. intros Hq (_ & Hw & _). unfold records. by rewrite Hw. Qed.

Lemma records_kept (q : string) (w w' : world) : kept w w' → records w' q = records w q.
Proof. intros (Hk & _). unfold records. by rewrite Hk. Qed.

End lines.

(** ** The image resolver, case by case *)

Lemma stamp_ticks_fresh (d : gmap string json) :
  d !! "time" = None → stamp_ticks d = 1%nat.
Proof. unfold stamp_ticks. by intros ->. Qed.

Ltac no_time :=
  unfold pixel_event, click_event, local_ok, local_failed, remote_ok, remote_failed;
  rewrite ?lookup_insert_ne by done; apply lookup_empty.

Section resolver.
Context `{P : Platform}.

Lemma serve_local_missing (email : string) (message_id : option string)
    (p : string) (w : world) :
  uploads w !! upload_path p = None →
  serve_local email message_id p w = (Ok None, w).
Proof.
  intros Hu. unfold serve_local, bind, upload_exists. rewrite Hu.
  by rewrite bool_decide_eq_false_2 by (by intros [? ?]).
Qed.

Lemma serve_local_file (email : string) (message_id : option string)
    (p content : string) (w : world) :
  uploads w !! upload_path p = Some (File content) →
  ∃ w', serve_local email message_id p w
        = (Ok (Some (Response content
                       (default "application/octet-stream" (guess_type (upload_path p)))
                       HEADERS)), w')
        ∧ wrote IMG_READ_FILE (line (stamped w (local_ok email message_id p))) w w'
        ∧ ticks w' = S (ticks w).
Proof.
  intros Hu.
  destruct (append_event_spec IMG_READ_FILE (local_ok email message_id p) w)
    as (w' & Ha & Hw & Ht & _).
  exists w'. split; [|split; [done|rewrite Ht, stamp_ticks_fresh by no_time; lia]].
  unfold serve_local, bind, upload_exists, upload_read. rewrite Hu.
  rewrite bool_decide_eq_true_2 by done. cbv beta. rewrite Hu. by rewrite Ha.
Qed.

Lemma serve_local_unreadable (email : string) (message_id : option string)
    (p err : string) (w : world) :
  uploads w !! upload_path p = Some (Unreadable err) →
  ∃ w', serve_local email message_id p w = (Ok (Some placeholder), w')
        ∧ wrote IMG_READ_FILE (line (stamped w (local_failed email message_id err))) w w'
        ∧ ticks w' = S (ticks w).
Proof.
  intros Hu.
  destruct (append_event_spec IMG_READ_FILE (local_failed email message_id err) w)
    as (w' & Ha & Hw & Ht & _).
  exists w'. split; [|split; [done|rewrite Ht, stamp_ticks_fresh by no_time; lia]].
  unfold serve_local, bind, upload_exists, upload_read. rewrite Hu.
  rewrite bool_decide_eq_true_2 by done. cbv beta. rewrite Hu. by rewrite Ha.
Qed.

Lemma proxy_remote_error (email : string) (message_id : option string)
    (p err : string) (w : world) :
  net w p = FetchError err →
  ∃ w', proxy_remote email message_id p w = (Ok placeholder, w')
        ∧ wrote IMG_READ_FILE (line (stamped w (remote_failed email message_id p err))) w w'
        ∧ ticks w' = S (ticks w).
Proof.
  intros Hn.
  destruct (append_event_spec IMG_READ_FILE (remote_failed email message_id p err) w)
    as (w' & Ha & Hw & Ht & _).
  exists w'. split; [|split; [done|rewrite Ht, stamp_ticks_fresh by no_time; lia]].
  unfold proxy_remote, bind, requests_get. by rewrite Hn, Ha.
Qed.

Lemma proxy_remote_reply (email : string) (message_id : option string)
    (p bytes : string) (status : Z) (ctype : option string) (w : world) :
  net w p = Reply status ctype (Body bytes) →
  ∃ w', proxy_remote email message_id p w
        = (Ok (Response bytes (default "image/jpeg" ctype) HEADERS), w')
        ∧ wrote IMG_READ_FILE (line (stamped w (remote_ok email message_id p))) w w'
        ∧ ticks w' = S (ticks w).
Proof.
  intros Hn.
  destruct (append_event_spec IMG_READ_FILE (remote_ok email message_id p) w)
    as (w' & Ha & Hw & Ht & _).
  exists w'. split; [|split; [done|rewrite Ht, stamp_ticks_fresh by no_time; lia]].
  unfold proxy_remote, bind, requests_get. by rewrite Hn, Ha.
Qed.

Lemma proxy_remote_body_error (email : string) (message_id : option string)
    (p err : string) (status : Z) (ctype : option string) (w : world) :
  net w p = Reply status ctype (BodyError err) →
  ∃ w1 w', proxy_remote email message_id p w = (Ok placeholder, w')
        ∧ wrote IMG_READ_FILE (line (stamped w (remote_ok email message_id p))) w w1
        ∧ wrote IMG_READ_FILE (line (stamped w1 (remote_failed email message_id p err))) w1 w'
        ∧ ticks w' = S (S (ticks w)).
Proof.
  intros Hn.
  destruct (append_event_spec IMG_READ_FILE (remote_ok email message_id p) w)
    as (w1 & Ha & Hw & Ht & _).
  destruct (append_event_spec IMG_READ_FILE (remote_failed email message_id p err) w1)
    as (w' & Ha' & Hw' & Ht' & _).
  exists w1, w'. split; [|split; [done|split; [done|]]].
  - unfold proxy_remote, bind, requests_get. by rewrite Hn, Ha, Ha'.
  - rewrite Ht', Ht, !stamp_ticks_fresh by no_time. lia.
Qed.

Lemma resolve_local (email : string) (message_id : option string) (p : string) :
  truthy (Some p) = true → is_remote p = false →
  resolve email (Some p) message_id
  = let* local := serve_local email message_id p in
    match local with Some r => ret r | None => ret placeholder end.
Proof. intros Ht Hr. unfold resolve. by rewrite Ht, Hr. Qed.

Lemma resolve_remote (email : string) (message_id : option string) (p : string) (w : world) :
  truthy (Some p) = true → is_remote p = true →
  resolve email (Some p) message_id w = proxy_remote email message_id p w.
Proof. intros Ht Hr. unfold resolve, bind, ret. by rewrite Ht, Hr. Qed.

Lemma resolve_absent (email : string) (image_param message_id : option string) (w : world) :
  truthy image_param = false →
  resolve email image_param message_id w = (Ok placeholder, w).
Proof. intros Ht. unfold resolve, bind, ret. rewrite Ht. by destruct image_param. Qed.

End resolver.

(** ** The implementation obeys the laws: JSON *)

Section std_json.
Import Std.
#[local] Arguments String.append !_ _ /.

#[local] Arguments join : simpl never.
#[local] Arguments member : simpl never.

Lemma dumps_dict (d : gmap string json) :
  Std.dumps (JDict d) = "{" +:+ join ", " (member <$> map_to_list d) +:+ "}".
Proof.
  change (Std.dumps (JDict d))
    with ("{" +:+ join ", "
            (map_fold (λ k v acc, (dump_str k +:+ ": " +:+ Std.dumps v) :: acc) [] d)
          +:+ "}").
  rewrite map_fold_foldr. do 3 f_equal.
  induction (map_to_list d) as [|[k v] l IH]; [done|].
  rewrite fmap_cons. simpl foldr. f_equal. exact IH.
Qed.

Lemma read_str_escape_char (c : ascii) (x : string) :
  read_str (escape_char c +:+ x)
  = '(t, rest) ← read_str x; Some (String c t, rest).
Proof. destruct c as [[] [] [] [] [] [] [] []]; reflexivity. Qed.

Lemma read_str_escape (s rest : string) :
  read_str (escape s +:+ String quote rest) = Some (s, rest).
Proof.
  induction s as [|c s IH]; [done|].
  change (escape (String c s)) with (escape_char c +:+ escape s).
  by rewrite str_app_assoc, read_str_escape_char, IH.
Qed.

Lemma read_value_scalar (n : nat) (v : json) (x : string) :
  scalar v → read_value (S n) (" " +:+ Std.dumps v +:+ x) = Some (v, x).
Proof.
  intros [->|[s ->]]; [done|].
  simpl. rewrite str_app_assoc. simpl. by rewrite read_str_escape.
Qed.

Lemma skip_ws_punct (c : ascii) (x : string) :
  json_ws c = false → skip_ws (String c x) = String c x.
Proof. intros H. simpl. by rewrite H. Qed.

Lemma members_spec (V : string → option (json * string)) (l : list (string * json))
    (fuel : nat) (pre rest : string) :
  (∀ v x, scalar v → V (String " " (Std.dumps v +:+ x)) = Some (v, x)) →
  l ≠ [] → Forall scalar l.*2 → (length l ≤ fuel)%nat → pre = "" ∨ pre = " " →
  members V fuel (pre +:+ join ", " (member <$> l) +:+ "}" +:+ rest) = Some (l, rest).
Proof.
  intros HV. revert fuel pre.
  induction l as [|[k v] l IH]; intros fuel pre Hl Hs Hf Hpre; [done|].
  destruct fuel as [|fuel]; [simpl in Hf; lia|].
  apply Forall_cons in Hs as [Hv Hs].
  assert (∀ y, members V (S fuel) (pre +:+ member (k, v) +:+ y)
             = match skip_ws y with
               | String "," r => '(l, r) ← members V fuel r; Some ((k, v) :: l, r)
               | String "}" r => Some ([(k, v)], r)
               | _ => None
               end) as Hone.
  { intros y. unfold member, dump_str. simpl fst. simpl snd.
    destruct Hpre as [-> | ->]; simpl;
      rewrite !str_app_assoc; simpl; rewrite read_str_escape; simpl;
      by rewrite HV. }
  destruct l as [|kv l].
  - simpl join. rewrite Hone. done.
  - change (join ", " (member <$> (k, v) :: kv :: l))
      with (member (k, v) +:+ ", " +:+ join ", " (member <$> kv :: l)).
    rewrite !str_app_assoc, Hone.
    assert (members V fuel (" " +:+ join ", " (member <$> kv :: l) +:+ "}" +:+ rest)
            = Some (kv :: l, rest)) as IH'.
    { apply IH; [done|done|simpl in *; lia|by right]. }
    simpl in *. by rewrite IH'.
Qed.

Lemma member_quote (kv : string * json) : ∃ t, member kv = String quote t.
Proof. by eexists. Qed.

Lemma join_member_quote (kv : string * json) (l : list (string * json)) :
  ∃ t, join ", " (member <$> kv :: l) = String quote t.
Proof. destruct l; by eexists. Qed.

Lemma join_member_length (l : list (string * json)) :
  (length l ≤ String.length (join ", " (member <$> l)))%nat.
Proof.
  induction l as [|kv l IH]; [done|]. destruct l as [|kv' l]; [simpl; lia|].
  change (join ", " (member <$> kv :: kv' :: l))
    with (member kv +:+ ", " +:+ join ", " (member <$> kv' :: l)).
  destruct (member_quote kv) as [t ->].
  rewrite !str_length_app. simpl in *. lia.
Qed.

Lemma dict_of_reverse (l : list (string * json)) :
  dict_of l = list_to_map (reverse l).
Proof.
  induction l as [|[k v] l IH] using rev_ind; [done|].
  unfold dict_of in *. by rewrite foldl_snoc, reverse_snoc, IH.
Qed.

Lemma dict_of_map_to_list (d : gmap string json) : dict_of (map_to_list d) = d.
Proof.
  rewrite dict_of_reverse. symmetry. apply list_to_map_flip.
  by rewrite reverse_Permutation.
Qed.

Lemma plain_scalars (d : gmap string json) :
  plain d → Forall scalar (map_to_list d).*2.
Proof.
  intros Hd. apply Forall_fmap, Forall_forall. intros [k v] Hkv.
  apply elem_of_map_to_list in Hkv. by apply (Hd k v).
Qed.

Lemma std_loads_dumps (d : gmap string json) :
  plain d → Std.loads (Std.dumps (JDict d)) = Some (JDict d).
Proof.
  intros Hd. rewrite dumps_dict.
  destruct (map_to_list d) as [|kv l] eqn:El.
  { apply map_to_list_empty_iff in El as ->. done. }
  pose proof (plain_scalars d Hd) as Hs. rewrite El in Hs.
  pose proof (join_member_length (kv :: l)) as Hlen.
  pose proof (members_spec (read_value (String.length (join ", " (member <$> kv :: l) +:+ "}")))
                (kv :: l) (String.length (join ", " (member <$> kv :: l) +:+ "}")) "" "") as Hm.
  destruct (join_member_quote kv l) as [t Ht]. rewrite Ht in *.
  unfold Std.loads. simpl in *.
  rewrite Hm; try done.
  - simpl. by rewrite <-El, dict_of_map_to_list.
  - intros v x Hv. by apply (read_value_scalar _ v x).
  - rewrite str_length_app in *. simpl in *. lia.
  - by left.
Qed.

(** No raw line break in what is written. *)

Lemma escape_char_no_break (c a : ascii) :
  c = Text.LF ∨ c = Text.CR → Text.mem c (escape_char a) = false.
Proof. intros [-> | ->]; destruct a as [[] [] [] [] [] [] [] []]; reflexivity. Qed.

Lemma escape_no_break (c : ascii) (s : string) :
  c = Text.LF ∨ c = Text.CR → Text.mem c (escape s) = false.
Proof.
  intros Hc. induction s as [|a s IH]; [done|].
  change (escape (String a s)) with (escape_char a +:+ escape s).
  by rewrite str_mem_app, escape_char_no_break, IH.
Qed.

Lemma dump_str_no_break (c : ascii) (s : string) :
  c = Text.LF ∨ c = Text.CR → Text.mem c (dump_str s) = false.
Proof.
  intros Hc. unfold dump_str.
  change (String quote (escape s +:+ String quote ""))
    with (String quote "" +:+ escape s +:+ String quote "").
  rewrite !str_mem_app, escape_no_break by done.
  by destruct Hc as [-> | ->].
Qed.

Lemma member_no_break (c : ascii) (kv : string * json) :
  c = Text.LF ∨ c = Text.CR → scalar kv.2 → Text.mem c (member kv) = false.
Proof.
  intros Hc Hv. unfold member.
  rewrite !str_mem_app, dump_str_no_break by done.
  destruct Hv as [-> | [s ->]].
  - by destruct Hc as [-> | ->].
  - change (Std.dumps (JStr s)) with (dump_str s).
    rewrite dump_str_no_break by done. by destruct Hc as [-> | ->].
Qed.

Lemma join_no_break (c : ascii) (l : list (string * json)) :
  c = Text.LF ∨ c = Text.CR → Forall scalar l.*2 →
  Text.mem c (join ", " (member <$> l)) = false.
Proof.
  intros Hc. induction l as [|kv l IH]; [done|]. intros [Hv Hl]%Forall_cons.
  destruct l as [|kv' l]; [by apply member_no_break|].
  change (join ", " (member <$> kv :: kv' :: l))
    with (member kv +:+ ", " +:+ join ", " (member <$> kv' :: l)).
  rewrite !str_mem_app, member_no_break, IH by done.
  by destruct Hc as [-> | ->].
Qed.

Lemma std_dumps_no_break (c : ascii) (d : gmap string json) :
  c = Text.LF ∨ c = Text.CR → plain d → Text.mem c (Std.dumps (JDict d)) = false.
Proof.
  intros Hc Hd. rewrite dumps_dict, !str_mem_app, join_no_break
    by auto using plain_scalars.
  by destruct Hc as [-> | ->].
Qed.

(** Nothing to strip. *)

Lemma isspace2_brace (c : ascii) : Text.isspace2 c "}" = false.
Proof.
  unfold Text.isspace2. change (Text.code "}") with 125%N. simpl.
  apply andb_false_r.
Qed.

Lemma isspace3_brace (c1 c2 : ascii) : Text.isspace3 c1 c2 "}" = false.
Proof.
  unfold Text.isspace3. change (Text.code "}") with 125%N. simpl.
  by rewrite !andb_false_r.
Qed.

Lemma isspace3_brace_mid (c1 c3 : ascii) : Text.isspace3 c1 "}" c3 = false.
Proof.
  unfold Text.isspace3. change (Text.code "}") with 125%N. simpl.
  by rewrite !andb_false_r.
Qed.

Lemma lstrip_brace (t : string) : Text.lstrip (String "}" t) = String "}" t.
Proof. by destruct t as [|c2 [|c3 r]]. Qed.

Lemma lstrip_open (t : string) : Text.lstrip (String "{" t) = String "{" t.
Proof. by destruct t as [|c2 [|c3 r]]. Qed.

Lemma blank_brace_aux (n : nat) (y t : string) :
  (String.length y ≤ n)%nat → Text.blank (y +:+ String "}" t) = false.
Proof.
  revert y. induction n as [|n IH]; intros y Hn; unfold Text.blank in *.
  { destruct y; [|simpl in Hn; lia]. simpl (_ +:+ _). by rewrite lstrip_brace. }
  destruct y as [|c1 r1]; [simpl (_ +:+ _); by rewrite lstrip_brace|].
  simpl in Hn. destruct (Text.isspace1 c1) eqn:H1.
  { simpl (_ +:+ _). rewrite lstrip_1 by done. apply IH. lia. }
  destruct r1 as [|c2 r2].
  { simpl (_ +:+ _). destruct t as [|c3 r3]; simpl.
    - by rewrite H1, isspace2_brace.
    - by rewrite H1, isspace2_brace, isspace3_brace_mid. }
  simpl in Hn. destruct (Text.isspace2 c1 c2) eqn:H2.
  { simpl (_ +:+ _). rewrite lstrip_2 by done. apply IH. lia. }
  destruct r2 as [|c3 r3].
  { simpl. by rewrite H1, H2, isspace3_brace. }
  simpl in Hn. destruct (Text.isspace3 c1 c2 c3) eqn:H3.
  { simpl (_ +:+ _). rewrite lstrip_3 by done. apply IH. lia. }
  simpl. by rewrite H1, H2, H3.
Qed.

Lemma rstrip_brace (y : string) : Text.rstrip (y +:+ "}") = y +:+ "}".
Proof.
  induction y as [|c y IH]; [done|].
  simpl (_ +:+ _).
  change (Text.rstrip (String c (y +:+ "}")))
    with (if Text.blank (String c y +:+ "}") then ""
          else String c (Text.rstrip (y +:+ "}"))).
  by rewrite (blank_brace_aux (String.length (String c y))), IH.
Qed.

Lemma std_dumps_stripped (d : gmap string json) :
  Text.strip (Std.dumps (JDict d)) = Std.dumps (JDict d).
Proof.
  rewrite dumps_dict. unfold Text.strip. simpl (_ +:+ _).
  rewrite lstrip_open.
  change (String "{" (join ", " (member <$> map_to_list d) +:+ "}"))
    with (String "{" (join ", " (member <$> map_to_list d)) +:+ "}").
  apply rstrip_brace.
Qed.

Lemma std_dumps_nonempty (d : gmap string json) : Std.dumps (JDict d) ≠ "".
Proof. by rewrite dumps_dict. Qed.

End std_json.

(** ** The implementation obeys the laws: time stamps *)

Section std_time.
Import Std.
#[local] Arguments String.append !_ _ /.
#[local] Arguments digits : simpl never.

Lemma digit_char (q : Z) :
  0 <= q <= 9 → Iso.digit (ascii_of_N (48 + Z.to_N q)) = Some q.
Proof.
  intros Hq.
  assert (q = 0 ∨ q = 1 ∨ q = 2 ∨ q = 3 ∨ q = 4 ∨ q = 5 ∨ q = 6 ∨ q = 7
          ∨ q = 8 ∨ q = 9) as Hc by lia.
  repeat destruct Hc as [-> | Hc]; try reflexivity. by subst.
Qed.

Lemma number_digits (n : nat) (acc v : Z) (rest : string) :
  0 <= v < 10 ^ Z.of_nat n →
  Iso.number n acc (digits n v +:+ rest) = Some (acc * 10 ^ Z.of_nat n + v, rest).
Proof.
  revert acc v. induction n as [|n IH]; intros acc v Hv.
  { simpl in *. do 2 f_equal. lia. }
  rewrite Nat2Z.inj_succ, Z.pow_succ_r in * by lia.
  set (p := 10 ^ Z.of_nat n) in *.
  assert (0 < p) by (apply Z.pow_pos_nonneg; lia).
  change (digits (S n) v) with (String (ascii_of_N (48 + Z.to_N (v / p))) (digits n (v mod p))).
  simpl. rewrite digit_char by (split; [apply Z.div_pos; lia|apply Z.lt_succ_r, Z.div_lt_upper_bound; lia]).
  simpl. rewrite IH by (apply Z.mod_pos_bound; lia).
  do 2 f_equal. pose proof (Z.div_mod v p). lia.
Qed.

Lemma only_refl (c : ascii) : Iso.only c c = true.
Proof. by apply bool_decide_eq_true. Qed.

Ltac step :=
  cbn -[digits Iso.number Iso.only Z.pow Z.mul Z.add Z.of_nat Z.eqb];
  rewrite ?only_refl;
  cbn -[digits Iso.number Iso.only Z.pow Z.mul Z.add Z.of_nat Z.eqb].

Lemma read_format_date (d : Iso.date) (rest : string) :
  0 <= Iso.year d < 10000 → 0 <= Iso.month d < 100 → 0 <= Iso.day d < 100 →
  Iso.read_date (format_date d +:+ rest) = Some (d, rest).
Proof.
  intros Hy Hm Hd. destruct d as [y m d]. unfold Iso.read_date, format_date.
  cbn [Iso.year Iso.month Iso.day] in *.
  rewrite !str_app_assoc, number_digits by (simpl; lia). step.
  rewrite number_digits by (simpl; lia). step.
  rewrite number_digits by (simpl; lia). step.
  do 3 f_equal; lia.
Qed.

Lemma read_format_time (t : Iso.time) (rest : string) :
  0 <= Iso.hour t < 100 → 0 <= Iso.minute t < 100 → 0 <= Iso.second t < 100 →
  0 <= Iso.microsecond t < 1000000 → Text.startswith "." rest = false →
  Iso.read_time (format_time t +:+ rest) = Some (t, rest).
Proof.
  intros Hh Hm Hs Hf Hrest. destruct t as [h m x f].
  unfold Iso.read_time, format_time.
  cbn [Iso.hour Iso.minute Iso.second Iso.microsecond] in *.
  rewrite !str_app_assoc, number_digits by (simpl; lia). step.
  rewrite number_digits by (simpl; lia). step.
  rewrite number_digits by (simpl; lia). step.
  destruct (Z.eqb_spec f 0) as [-> | Hne].
  - step. destruct rest as [|c rest]; [done|].
    simpl in Hrest. apply andb_false_iff in Hrest as [Hc|]; [|done].
    apply bool_decide_eq_false in Hc.
    destruct c as [[] [] [] [] [] [] [] []]; done.
  - step. rewrite number_digits by (simpl; lia). step.
    do 3 f_equal; lia.
Qed.

(** *** The calendar *)

Lemma month_day_checked :
  forallb (month_day_ok true) (seqZ 0 366) && forallb (month_day_ok false) (seqZ 0 365)
  = true.
Proof. vm_compute. reflexivity. Qed.

Lemma month_day_spec (leapyear : bool) (r : Z) :
  0 <= r < 365 + (if leapyear then 1 else 0) → month_day_ok leapyear r = true.
Proof.
  intros Hr. pose proof month_day_checked as [Ht Hf]%andb_true_iff.
  destruct leapyear.
  - eapply forallb_forall in Ht; [done|]. apply list_elem_of_In, elem_of_seqZ. lia.
  - eapply forallb_forall in Hf; [done|]. apply list_elem_of_In, elem_of_seqZ. lia.
Qed.

Lemma year_split (n : Z) :
  0 <= n < 3652059 →
  let n400 := n / 146097 in let r := n mod 146097 in
  let n100 := r / 36524 in let r' := r mod 36524 in
  let n4 := r' / 1461 in let r'' := r' mod 1461 in
  let n1 := r'' / 365 in let r1 := r'' mod 365 in
  0 <= n400 <= 24 ∧ 0 <= n100 <= 4 ∧ 0 <= n4 <= 24 ∧ 0 <= n1 <= 4 ∧ 0 <= r1 < 365
  ∧ (n100 = 4 → n4 = 0 ∧ n1 = 0 ∧ r1 = 0)
  ∧ (n1 = 4 → n4 <= 23 ∧ r1 = 0)
  ∧ n = 146097 * n400 + 36524 * n100 + 1461 * n4 + 365 * n1 + r1.
Proof. intros Hn. cbv zeta. Z.to_euclidean_division_equations. lia. Qed.

Lemma is_leap_split (n400 n100 n4 n1 : Z) :
  0 <= n400 → 0 <= n100 <= 3 → 0 <= n4 <= 24 → 0 <= n1 <= 3 →
  is_leap (n400 * 400 + 1 + n100 * 100 + n4 * 4 + n1)
  = (n1 =? 3) && (negb (n4 =? 24) || (n100 =? 3)).
Proof.
  intros H400 H100 H4 H1. unfold is_leap.
  destruct (Z.eqb_spec n1 3), (Z.eqb_spec n4 24), (Z.eqb_spec n100 3); simpl;
    repeat match goal with
           | |- context [?a mod ?b =? 0] => destruct (Z.eqb_spec (a mod b) 0)
           end; simpl; try reflexivity;
    exfalso; Z.to_euclidean_division_equations; lia.
Qed.

Lemma days_before_year_split (n400 n100 n4 n1 : Z) :
  0 <= n400 → 0 <= n100 <= 3 → 0 <= n4 <= 24 → 0 <= n1 <= 3 →
  days_before_year (n400 * 400 + 1 + n100 * 100 + n4 * 4 + n1)
  = 146097 * n400 + 36524 * n100 + 1461 * n4 + 365 * n1.
Proof.
  intros H400 H100 H4 H1. unfold days_before_year.
  Z.to_euclidean_division_equations. lia.
Qed.

(** The last day of a leap year: [n1 = 4] or [n100 = 4]. *)
Lemma last_day_split (n400 n100 n4 : Z) :
  0 <= n400 → 0 <= n100 <= 3 → 0 <= n4 <= 24 → (n4 = 24 → n100 = 3) →
  let y := n400 * 400 + n100 * 100 + n4 * 4 + 4 in
  is_leap y = true
  ∧ days_before_year y = 146097 * n400 + 36524 * n100 + 1461 * n4 + 1095.
Proof.
  intros H400 H100 H4 H24 y. subst y. split.
  - unfold is_leap.
    repeat match goal with
           | |- context [?a mod ?b =? 0] => destruct (Z.eqb_spec (a mod b) 0)
           end; simpl; try reflexivity;
      exfalso; Z.to_euclidean_division_equations; lia.
  - unfold days_before_year. Z.to_euclidean_division_equations. lia.
Qed.

Lemma ord2ymd_spec (n : Z) :
  1 <= n <= MAXORDINAL →
  ∃ y m d, ord2ymd n = (y, m, d) ∧ 1 <= y <= 9999 ∧ 1 <= m <= 12
           ∧ 1 <= d <= days_in_month y m ∧ ymd2ord y m d = n.
Proof.
  intros Hn. unfold MAXORDINAL in Hn. unfold ord2ymd. cbv zeta.
  pose proof (year_split (n - 1) ltac:(lia)) as Hs. cbv zeta in Hs.
  set (n400 := (n - 1) / 146097) in *. set (r := (n - 1) mod 146097) in *.
  set (n100 := r / 36524) in *. set (r' := r mod 36524) in *.
  set (n4 := r' / 1461) in *. set (r'' := r' mod 1461) in *.
  set (n1 := r'' / 365) in *. set (r1 := r'' mod 365) in *.
  clearbody n400 n100 n4 n1 r1. clear r r' r''.
  destruct Hs as (H400 & H100 & H4 & H1 & Hr1 & Hc & Hy & Heq).
  destruct ((n1 =? 4) || (n100 =? 4)) eqn:Hlast.
  - assert (∃ a b c, 0 <= a ∧ 0 <= b <= 3 ∧ 0 <= c <= 24 ∧ (c = 24 → b = 3)
              ∧ n400 * 400 + 1 + n100 * 100 + n4 * 4 + n1 - 1 = a * 400 + b * 100 + c * 4 + 4
              ∧ n - 1 = 146097 * a + 36524 * b + 1461 * c + 1460) as (a & b & c & ? & ? & ? & ? & -> & Hn').
    { apply orb_true_iff in Hlast as [?%Z.eqb_eq | ?%Z.eqb_eq].
      - exists n400, n100, n4. destruct (decide (n100 = 4)); lia.
      - exists n400, 3, 24. lia. }
    destruct (last_day_split a b c) as [Hleap Hd]; [done..|].
    eexists _, _, _. split; [done|].
    unfold days_in_month, ymd2ord, days_before_month. rewrite Hleap, Hd.
    change (at_month DAYS_IN_MONTH 12) with 31.
    change (at_month DAYS_BEFORE_MONTH 12) with 334. simpl. lia.
  - apply orb_false_iff in Hlast as [?%Z.eqb_neq ?%Z.eqb_neq].
    set (leapyear := (n1 =? 3) && (negb (n4 =? 24) || (n100 =? 3))).
    pose proof (month_day_spec leapyear r1) as Hmd.
    assert (leapyear = true → n1 = 3) as Hl.
    { subst leapyear. intros [?%Z.eqb_eq _]%andb_true_iff. done. }
    assert (0 <= r1 < 365 + (if leapyear then 1 else 0)) as Hr by (destruct leapyear; lia).
    specialize (Hmd Hr). unfold month_day_ok in Hmd.
    destruct (month_day leapyear r1) as [m d].
    eexists _, _, _. split; [done|].
    unfold days_in_month, ymd2ord, days_before_month.
    rewrite is_leap_split, days_before_year_split by lia. fold leapyear.
    repeat (apply andb_true_iff in Hmd as [Hmd ?]).
    split; [lia|]. split; [lia|]. split; [lia|]. lia.
Qed.

Lemma to_date_spec (t : Z) :
  is_datetime t →
  valid_date (to_date t) = true ∧ Iso.date_in_range (to_date t) = true
  ∧ ymd2ord (Iso.year (to_date t)) (Iso.month (to_date t)) (Iso.day (to_date t))
    = t / DAY_US + 1.
Proof.
  intros [Ht0 Ht1]. unfold to_date.
  assert (0 <= t / DAY_US < MAXORDINAL) as Hq.
  { split; [apply Z.div_pos; [done|by unfold DAY_US]|].
    apply Z.div_lt_upper_bound; [by unfold DAY_US|lia]. }
  destruct (ord2ymd_spec (t / DAY_US + 1) ltac:(lia)) as (y & m & d & -> & Hy & Hm & Hd & Heq).
  assert (days_in_month y m <= 31) as Hdim.
  { unfold days_in_month. destruct ((m =? 2) && is_leap y); [lia|].
    assert (m = 1 ∨ m = 2 ∨ m = 3 ∨ m = 4 ∨ m = 5 ∨ m = 6 ∨ m = 7 ∨ m = 8
            ∨ m = 9 ∨ m = 10 ∨ m = 11 ∨ m = 12) as Hc by lia.
    repeat destruct Hc as [-> | Hc]; try (vm_compute; congruence).
    subst. vm_compute. congruence. }
  unfold valid_date, Iso.date_in_range. cbn [Iso.year Iso.month Iso.day].
  split; [|split; [|done]]; repeat (apply andb_true_iff; split); lia.
Qed.

Lemma to_time_spec (t : Z) :
  let tm := to_time t in
  0 <= Iso.hour tm <= 23 ∧ 0 <= Iso.minute tm <= 59 ∧ 0 <= Iso.second tm <= 59
  ∧ 0 <= Iso.microsecond tm < 1000000
  ∧ Iso.hour tm * 3600000000 + Iso.minute tm * 60000000
    + Iso.second tm * 1000000 + Iso.microsecond tm = t mod DAY_US.
Proof.
  unfold to_time, DAY_US. cbn [Iso.hour Iso.minute Iso.second Iso.microsecond].
  Z.to_euclidean_division_equations. lia.
Qed.

Lemma of_fields_to (t : Z) : is_datetime t → of_fields (to_date t) (to_time t) = t.
Proof.
  intros Ht. destruct (to_date_spec t Ht) as (_ & _ & Hd).
  destruct (to_time_spec t) as (_ & _ & _ & _ & Hu).
  unfold of_fields. rewrite Hd. rewrite <-!Z.add_assoc, Z.add_assoc in Hu |- *.
  pose proof (Z.div_mod t DAY_US ltac:(by unfold DAY_US)). lia.
Qed.

Lemma read_isoformat (sep : ascii → bool) (t : Z) (rest : string) :
  is_datetime t → sep "T"%char = true → Text.startswith "." rest = false →
  Iso.read sep (Std.isoformat t +:+ rest) = Some (to_date t, to_time t, rest).
Proof.
  intros Ht Hsep Hrest. unfold Iso.read, Std.isoformat.
  destruct (to_date_spec t Ht) as (_ & Hd & _).
  destruct (to_time_spec t) as (Hh & Hm & Hs & Hf & _).
  unfold Iso.date_in_range in Hd.
  repeat (apply andb_true_iff in Hd as [Hd ?]).
  rewrite !str_app_assoc, read_format_date by lia.
  cbn -[format_time Iso.read_time]. rewrite Hsep. cbn -[format_time Iso.read_time].
  by rewrite read_format_time by (done || lia).
Qed.

Lemma std_isoformat_well_formed (t : Z) :
  is_datetime t → Iso.well_formed (Std.isoformat t) = true.
Proof.
  intros Ht. unfold Iso.well_formed.
  rewrite <-(str_app_nil_r (Std.isoformat t)), read_isoformat by (done || by apply only_refl).
  destruct (to_date_spec t Ht) as (_ & -> & _).
  destruct (to_time_spec t) as (Hh & Hm & Hs & _).
  unfold Iso.time_in_range. repeat (apply andb_true_iff; split); lia.
Qed.

Lemma std_fromisoformat_isoformat (t : Z) :
  is_datetime t → Std.fromisoformat (Std.isoformat t) = Some (Naive t).
Proof.
  intros Ht. unfold Std.fromisoformat, Std.isoformat.
  destruct (to_date_spec t Ht) as (Hv & Hd & _).
  destruct (to_time_spec t) as (Hh & Hm & Hs & Hf & _).
  unfold Iso.date_in_range in Hd.
  repeat (apply andb_true_iff in Hd as [Hd ?]).
  rewrite read_format_date by lia.
  cbn -[format_time Iso.read_time valid_date]. rewrite Hv.
  cbn -[format_time Iso.read_time].
  rewrite <-(str_app_nil_r (format_time (to_time t))), read_format_time by (done || lia).
  cbn -[Iso.time_in_range of_fields].
  assert (Iso.time_in_range (to_time t) = true) as ->.
  { unfold Iso.time_in_range. repeat (apply andb_true_iff; split); lia. }
  simpl negb. cbv iota. by rewrite of_fields_to.
Qed.

End std_time.

Lemma std_laws : PlatformLaws Std.platform.
Proof.
  split.
  - apply std_loads_dumps.
  - intros d. apply (std_dumps_no_break Text.LF). by left.
  - intros d. apply (std_dumps_no_break Text.CR). by right.
  - intros d _. apply std_dumps_stripped.
  - intros d _. apply std_dumps_nonempty.
  - apply std_fromisoformat_isoformat.
  - apply std_isoformat_well_formed.
Qed.

(** ** Paths *)

Section paths.
Import Text Path.
#[local] Arguments String.append !_ _ /.

Lemma rfind_ge (c : ascii) (s : string) : -1 <= rfind c s.
Proof.
  induction s as [|a s IH]; simpl; [lia|].
  destruct (Z.leb_spec 0 (rfind c s)); [lia|]. case_bool_decide; lia.
Qed.

Lemma rfind_none (c : ascii) (s : string) : mem c s = false → rfind c s = -1.
Proof.
  induction s as [|a s IH]; [done|]. simpl.
  intros [Ha Hs]%orb_false_iff. rewrite IH, Ha by done. done.
Qed.

Lemma rfind_app (c : ascii) (s1 s2 : string) :
  mem c s2 = false → rfind c (s1 +:+ s2) = rfind c s1.
Proof.
  intros H2. induction s1 as [|a s1 IH]; simpl; [by apply rfind_none|].
  by rewrite IH.
Qed.

(** [basename] splits a path after its last slash. *)
Lemma basename_split (p : string) :
  ∃ dir, p = dir +:+ basename p ∧ mem sep (basename p) = false
         ∧ (dir = "" ∨ ∃ d, dir = d +:+ "/")
         ∧ rfind sep p + 1 = Z.of_nat (String.length dir).
Proof.
  unfold basename. induction p as [|a p (dir & Hp & Hm & Hd & Hl)].
  { exists "". repeat split. by left. }
  pose proof (rfind_ge sep p) as Hge. simpl rfind.
  destruct (Z.leb_spec 0 (rfind sep p)) as [Hi|Hi].
  - exists (String a dir).
    replace (Z.to_nat (rfind sep p + 1 + 1)) with (S (Z.to_nat (rfind sep p + 1))) by lia.
    simpl. split; [by rewrite <-Hp|]. split; [done|]. split; [|lia].
    right. destruct Hd as [-> | [d ->]]; [simpl in Hl; lia|]. by exists (String a d).
  - assert (rfind sep p = -1) as Hr by lia. rewrite Hr in *. simpl in Hm.
    case_bool_decide as Ha.
    + exists "/". subst a. simpl. split; [done|]. split; [done|]. split; [|done].
      right. by exists "".
    + exists "". simpl. split; [done|]. split; [|by split; [left|]].
      rewrite bool_decide_eq_false_2 by done. done.
Qed.

Lemma basename_no_sep (p : string) : mem sep (basename p) = false.
Proof. by destruct (basename_split p) as (? & _ & ? & _). Qed.

Lemma join_upload (seg : string) :
  mem sep seg = false → join UPLOAD_FOLDER seg = "./uploads/" +:+ seg.
Proof.
  intros Hs. unfold join.
  assert (startswith "/" seg = false) as ->; [|done].
  destruct seg as [|c seg]; [done|]. simpl in *.
  apply orb_false_iff in Hs as [Hc _]. apply bool_decide_eq_false in Hc.
  rewrite bool_decide_eq_false_2; [done|]. intros E. apply Hc. by rewrite <-E.
Qed.

Lemma dirname_upload (seg : string) :
  mem sep seg = false → dirname ("./uploads/" +:+ seg) = UPLOAD_FOLDER.
Proof.
  intros Hs. unfold dirname. rewrite rfind_app by done.
  change (Z.to_nat (rfind sep "./uploads/" + 1)) with (String.length "./uploads/").
  by rewrite str_take_app_length.
Qed.

Lemma basename_upload (seg : string) :
  mem sep seg = false → basename ("./uploads/" +:+ seg) = seg.
Proof.
  intros Hs. unfold basename. rewrite rfind_app by done.
  change (Z.to_nat (rfind sep "./uploads/" + 1)) with (String.length "./uploads/").
  by rewrite str_drop_app_length.
Qed.

End paths.

(** ** What the upload area does not influence *)

Section frame.
Context `{P : Platform}.

Lemma append_event_frame (path : string) (obj : gmap string json)
    (u : gmap string upload) (w : world) :
  append_event path obj (with_uploads u w)
  = let '(r, w') := append_event path obj w in (r, with_uploads u w').
Proof.
  unfold append_event, stamp, ensure_file, makedirs, path_exists, truncate,
    write_append, utcnow, bind, ret.
  destruct (obj !! "time"); simpl;
    destruct (bool_decide (is_Some (files w !! path))); reflexivity.
Qed.

Lemma serve_local_frame (email : string) (message_id : option string) (p : string)
    (u : gmap string upload) (w : world) :
  u !! upload_path p = uploads w !! upload_path p →
  serve_local email message_id p (with_uploads u w)
  = let '(r, w') := serve_local email message_id p w in (r, with_uploads u w').
Proof.
  intros Hu. unfold serve_local, upload_exists, upload_read, bind. simpl. rewrite Hu.
  destruct (uploads w !! upload_path p) as [[c|e]|] eqn:E; simpl; rewrite ?Hu, ?E;
    [rewrite append_event_frame; by destruct (append_event _ _ w) as [[] ?]..|done].
Qed.

End frame.

(** ** The image resolver keeps to the upload directory *)

Section traversal.
Context `{P : Platform}.

(** C5. For an image reference that is no remote URL, the path the resolver
    consults is the upload directory joined with the part of the reference
    after its last slash: that part holds no slash, the directory of the
    resulting path is the upload directory itself, and whatever else the
    upload area holds has no influence on what is served or logged.
    [../../etc/passwd] resolves to [passwd] in the upload directory, and to
    the placeholder when that file is absent. *)
Theorem upload_path_keeps_only_basename (email : string)
    (message_id : option string) (p : string) (w : world) :
  let seg := Path.basename p in
  Text.mem Path.sep seg = false
  ∧ (∃ dir, p = dir +:+ seg ∧ (dir = "" ∨ ∃ d, dir = d +:+ "/"))
  ∧ upload_path p = UPLOAD_FOLDER +:+ "/" +:+ seg
  ∧ Path.dirname (upload_path p) = UPLOAD_FOLDER
  ∧ Path.basename (upload_path p) = seg
  ∧ (∀ u, u !! upload_path p = uploads w !! upload_path p →
          serve_local email message_id p (with_uploads u w)
          = let '(r, w') := serve_local email message_id p w in
            (r, with_uploads u w'))
  ∧ Path.basename "../../etc/passwd" = "passwd"
  ∧ (uploads w !! "./uploads/passwd" = None →
     resolve email (Some "../../etc/passwd") message_id w = (Ok placeholder, w)).
Proof.
  intros seg. pose proof (basename_no_sep p) as Hseg. fold seg in Hseg.
  split; [done|]. split.
  { destruct (basename_split p) as (dir & Hp & _ & Hd & _). by exists dir. }
  unfold upload_path. fold seg. rewrite join_upload by done.
  split; [done|]. split; [by apply dirname_upload|].
  split; [by apply basename_upload|]. split.
  { intros u Hu. apply serve_local_frame. unfold upload_path. fold seg.
    by rewrite join_upload. }
  split; [done|]. intros Hu.
  rewrite resolve_local by done. unfold bind.
  by rewrite serve_local_missing.
Qed.

End traversal.

(** ** The query endpoints *)

Section queries.
Context `{P : Platform}.

Lemma tracking_latest_spec (n : option Z) (w : world) :
  ∃ w', tracking_latest n w
        = (Ok (Latest (slice_to (default 200 n) (reverse (records w LOG_FILE)))
                      (slice_to (default 200 n) (reverse (records w IMG_READ_FILE)))), w')
        ∧ kept w w' ∧ ticks w' = ticks w.
Proof.
  unfold tracking_latest.
  destruct (read_jsonl_spec LOG_FILE w) as (w1 & H1 & Hk1 & Ht1 & _).
  destruct (read_jsonl_spec IMG_READ_FILE w1) as (w2 & H2 & Hk2 & Ht2 & _).
  exists w2. split; [|split; [by eapply kept_trans|lia]].
  erewrite bind_ok by done. erewrite bind_ok by done.
  by rewrite (records_kept _ w w1).
Qed.


Lemma slice_to_sublist {A} (n : Z) (l : list A) : slice_to n l `sublist_of` l.
Proof. unfold slice_to. destruct (0 <=? n); apply sublist_take. Qed.

Lemma select_sublist (p : gmap string json → bool) (l out : list json) :
  select p l = Ok out → out `sublist_of` l.
Proof.
  revert out. induction l as [|x l IH]; intros out; simpl.
  { intros [= <-]. done. }
  destruct x; try done. destruct (select p l) as [out'|]; [|done].
  intros [= <-]. destruct (p d).
  - by apply sublist_skip, IH.
  - by apply sublist_cons, IH.
Qed.

Lemma tracking_by_email_spec (email : string) (w : world) (r : by_email) :
  result (tracking_by_email email) w = Ok r →
  opens r `sublist_of` records w LOG_FILE
  ∧ clicks r `sublist_of` records w LOG_FILE
  ∧ by_email_img_reads r `sublist_of` records w IMG_READ_FILE.
Proof.
  unfold result, tracking_by_email.
  destruct (read_jsonl_spec LOG_FILE w) as (w1 & H1 & Hk1 & Ht1 & _).
  destruct (read_jsonl_spec IMG_READ_FILE w1) as (w2 & H2 & Hk2 & Ht2 & _).
  erewrite bind_ok by done. erewrite bind_ok by done.
  rewrite (records_kept _ w w1) by done.
  unfold bind, lift, ret.
  destruct (select _ (records w LOG_FILE)) as [o|] eqn:Eo; [|done].
  destruct (select _ (records w LOG_FILE)) as [c|] eqn:Ec in |- *; [|done].
  destruct (select _ (records w IMG_READ_FILE)) as [i|] eqn:Ei; [|done].
  intros [= <-]. simpl. repeat split; by eapply select_sublist.
Qed.


End queries.



(** ** Logs with malformed lines *)

Section malformed.
Context `{P : Platform}.

Lemma parse_line_entry (e : entry) :
  entry_ok e →
  parse_line (entry_text e +:+ Text.nl)
  = match e with Valid _ v => Some v | Malformed _ => None end.
Proof.
  intros (_ & _ & He). unfold parse_line. rewrite strip_app_nl.
  destruct e as [t v|t]; simpl in *.
  - destruct He as [Hne ->]. by rewrite bool_decide_eq_false_2.
  - case_bool_decide; [done|]. by destruct He.
Qed.

Lemma records_text_of (es : list entry) :
  Forall entry_ok es →
  omap parse_line (Text.readlines (text_of es)) = valid_records es.
Proof.
  induction 1 as [|e es He Hes IH]; [done|].
  change (text_of (e :: es)) with ((entry_text e +:+ Text.nl) +:+ text_of es).
  unfold Text.readlines at 1. rewrite readlines_go_app by done.
  destruct He as (HLF & HCR & He').
  rewrite readlines_go_line, str_app_nil_l, omap_app by done.
  change (omap parse_line [entry_text e +:+ Text.nl])
    with (match parse_line (entry_text e +:+ Text.nl) with
          | Some y => [y]
          | None => []
          end).
  rewrite parse_line_entry, IH by done. by destruct e.
Qed.

(** On a log file that holds text, mixing lines that parse and lines that
    do not, [read_jsonl] returns exactly the records of the lines that
    parse, in the order of the file, and leaves the file as it is; the
    lists a query returns are drawn from those records, in their order (the
    reverse order for [latest]), so no such line shows in them. *)
Theorem read_jsonl_skips_malformed (path : string) (es : list entry) (w : world) :
  Forall entry_ok es → content w path = text_of es →
  result (read_jsonl path) w = Ok (valid_records es)
  ∧ content (exec (read_jsonl path) w) path = text_of es
  ∧ (path = LOG_FILE →
     (∀ n, ∃ r, result (tracking_latest n) w = Ok r
                ∧ events r `sublist_of` reverse (valid_records es))
     ∧ (∀ email r, result (tracking_by_email email) w = Ok r →
                   opens r `sublist_of` valid_records es
                   ∧ clicks r `sublist_of` valid_records es))
  ∧ (path = IMG_READ_FILE →
     (∀ n, ∃ r, result (tracking_latest n) w = Ok r
                ∧ img_reads r `sublist_of` reverse (valid_records es))
     ∧ (∀ email r, result (tracking_by_email email) w = Ok r →
                   by_email_img_reads r `sublist_of` valid_records es)).
Proof.
  intros Hes Hc.
  assert (records w path = valid_records es) as Hr.
  { unfold records. rewrite Hc. by apply records_text_of. }
  destruct (read_jsonl_spec path w) as (w1 & H1 & (Hk & _) & _).
  unfold result, exec. rewrite H1. simpl. rewrite Hr, Hk.
  split; [done|]. split; [done|]. split; intros ->.
  - split.
    + intros n. destruct (tracking_latest_spec n w) as (w' & -> & _).
      eexists. split; [done|]. simpl. rewrite <-Hr. apply slice_to_sublist.
    + intros email r Hq. apply tracking_by_email_spec in Hq as (? & ? & _).
      by rewrite <-Hr.
  - split.
    + intros n. destruct (tracking_latest_spec n w) as (w' & -> & _).
      eexists. split; [done|]. simpl. rewrite <-Hr. apply slice_to_sublist.
    + intros email r Hq. apply tracking_by_email_spec in Hq as (_ & _ & ?).
      by rewrite <-Hr.
Qed.

(** On any bytes: the file is decoded first, and read as text when it
    decodes. *)
Lemma read_jsonl_bytes_spec (path : string) (w : world) :
  ∃ w', kept w w' ∧ ticks w' = ticks w
    ∧ read_jsonl_bytes path w
      = (if Text.utf8 (content w path) then Ok (records w path)
         else Raise UnicodeDecodeError, w').
Proof.
  unfold read_jsonl_bytes.
  destruct (ensure_file_spec path w) as (w1 & H1 & Hk & Ht & _).
  exists w1. split; [done|]. split; [done|].
  erewrite bind_ok by done. unfold bind, decode_file, ret, records.
  destruct Hk as (Hc & _). rewrite Hc. by destruct (Text.utf8 (content w path)).
Qed.

End malformed.

(** ** Time stamps with a [Z] *)

Section iso_facts.
#[local] Arguments String.append !_ _ /.



#[local] Arguments Iso.number : simpl never.
#[local] Arguments Iso.expect : simpl never.





End iso_facts.

(** ** Appending, then reading *)

Section appends.
Context `{P : Platform} {L : PlatformLaws P}.





End appends.

(** ** The image-read log *)

Section image_reads.
Context `{P : Platform}.

Lemma is_remote_truthy (p : string) : is_remote p = true → truthy (Some p) = true.
Proof. by destruct p. Qed.

Lemma wrote_one (text : string) (w w' : world) :
  wrote IMG_READ_FILE text w w' →
  content w' IMG_READ_FILE = content w IMG_READ_FILE +:+ text
  ∧ content w' LOG_FILE = content w LOG_FILE.
Proof. intros (Hw & Ho & _). split; [done|]. by apply Ho. Qed.

(** C1, as amended.  A call of the resolver with an image reference appends
    exactly one record to the image-read log when the reference is local and
    its file exists in the upload directory (a record with [served=local],
    and with [error] and the placeholder as answer when the file cannot be
    read), when it is remote and the fetch raises before a response arrives,
    and when it is remote and the response is read to its end (a record with
    [served=remote]).  When the reference is local and its file does not
    exist, nothing is logged, the state is left as it is and the caller
    receives the placeholder.  The primary log is not written by the
    resolver. *)
Theorem resolve_logs_image_read (email : string) (message_id : option string)
    (p : string) (w : world) :
  truthy (Some p) = true →
  (is_remote p = false →
     (uploads w !! upload_path p = None →
        resolve email (Some p) message_id w = (Ok placeholder, w))
     ∧ (∀ bytes, uploads w !! upload_path p = Some (File bytes) →
        ∃ w', resolve email (Some p) message_id w
              = (Ok (Response bytes
                       (default "application/octet-stream" (guess_type (upload_path p)))
                       HEADERS), w')
              ∧ wrote IMG_READ_FILE (line (stamped w (local_ok email message_id p))) w w')
     ∧ (∀ err, uploads w !! upload_path p = Some (Unreadable err) →
        ∃ w', resolve email (Some p) message_id w = (Ok placeholder, w')
              ∧ wrote IMG_READ_FILE (line (stamped w (local_failed email message_id err))) w w'))
  ∧ (is_remote p = true →
     (∀ err, net w p = FetchError err →
        ∃ w', resolve email (Some p) message_id w = (Ok placeholder, w')
              ∧ wrote IMG_READ_FILE (line (stamped w (remote_failed email message_id p err))) w w')
     ∧ (∀ status ctype bytes, net w p = Reply status ctype (Body bytes) →
        ∃ w', resolve email (Some p) message_id w
              = (Ok (Response bytes (default "image/jpeg" ctype) HEADERS), w')
              ∧ wrote IMG_READ_FILE (line (stamped w (remote_ok email message_id p))) w w'))
  ∧ local_ok email message_id p !! "served" = Some (JStr "local")
  ∧ (∀ err, local_failed email message_id err !! "served" = Some (JStr "local")
            ∧ local_failed email message_id err !! "error" = Some (JStr err)
            ∧ remote_failed email message_id p err !! "served" = Some (JStr "remote")
            ∧ remote_failed email message_id p err !! "error" = Some (JStr err))
  ∧ remote_ok email message_id p !! "served" = Some (JStr "remote").
Proof.
  intros Ht. split; [|split; [|done]].
  - intros Hr. rewrite resolve_local by done. unfold bind. repeat split.
    + intros Hu. by rewrite serve_local_missing.
    + intros bytes Hu.
      destruct (serve_local_file email message_id p bytes w Hu) as (w' & -> & Hw & _).
      by exists w'.
    + intros err Hu.
      destruct (serve_local_unreadable email message_id p err w Hu) as (w' & -> & Hw & _).
      by exists w'.
  - intros Hr. split.
    + intros err Hn. rewrite resolve_remote by done.
      destruct (proxy_remote_error email message_id p err w Hn) as (w' & -> & Hw & _).
      by exists w'.
    + intros status ctype bytes Hn. rewrite resolve_remote by done.
      destruct (proxy_remote_reply email message_id p bytes status ctype w Hn)
        as (w' & -> & Hw & _).
      by exists w'.
Qed.

(** C6. For a reference that starts with [http://] or [https://] whose
    fetch raises, be it before a response arrives or while the body is read,
    the exception is caught: the caller receives the placeholder GIF as
    [image/gif], and the last line appended to the image-read log is a
    record with [served=remote], the URL and the message of the exception
    as [error]. *)
Theorem remote_failure_logged (email : string) (message_id : option string)
    (p err : string) (w : world) :
  is_remote p = true →
  net w p = FetchError err ∨ (∃ status ctype, net w p = Reply status ctype (BodyError err)) →
  ∃ w' t before,
    let ev := <["time" := JStr (isoformat t +:+ "Z")]> (remote_failed email message_id p err) in
    resolve email (Some p) message_id w
    = (Ok (Response ONE_BY_ONE_GIF "image/gif" HEADERS), w')
    ∧ content w' IMG_READ_FILE = (content w IMG_READ_FILE +:+ before) +:+ line ev
    ∧ (net w p = FetchError err → before = "" ∧ t = now w)
    ∧ ev !! "served" = Some (JStr "remote")
    ∧ ev !! "url" = Some (JStr p)
    ∧ ev !! "error" = Some (JStr err)
    ∧ ev !! "email" = Some (JStr email)
    ∧ ev !! "message_id" = Some (of_opt message_id).
Proof.
  intros Hr Hn. rewrite resolve_remote by auto using is_remote_truthy.
  destruct Hn as [Hn | (status & ctype & Hn)].
  - destruct (proxy_remote_error email message_id p err w Hn) as (w' & -> & Hw & _).
    apply wrote_one in Hw as [Hw _].
    exists w', (now w), "". cbv zeta. rewrite str_app_nil_r.
    split; [done|]. split; [done|]. split; [done|]. by repeat split.
  - destruct (proxy_remote_body_error email message_id p err status ctype w Hn)
      as (w1 & w' & -> & Hw1 & Hw & _).
    apply wrote_one in Hw1 as [Hw1 _]. apply wrote_one in Hw as [Hw _].
    exists w', (now w1), (line (stamped w (remote_ok email message_id p))). cbv zeta.
    split; [done|]. split; [by rewrite Hw, Hw1|].
    split; [by rewrite Hn|]. by repeat split.
Qed.

(** C9. For a remote reference whose fetch returns a response, whatever
    its status (4xx and 5xx included), the body is the answer, with the
    content type of the response, or [image/jpeg] when it has none; one
    record is appended to the image-read log, with [served=remote], the URL
    and no [error]; the status plays no part. *)
Theorem remote_reply_any_status (email : string) (message_id : option string)
    (p bytes : string) (status : Z) (ctype : option string) (w : world) :
  is_remote p = true → net w p = Reply status ctype (Body bytes) →
  ∃ w',
    let ev := <["time" := JStr (isoformat (now w) +:+ "Z")]> (remote_ok email message_id p) in
    resolve email (Some p) message_id w
    = (Ok (Response bytes (default "image/jpeg" ctype) HEADERS), w')
    ∧ content w' IMG_READ_FILE = content w IMG_READ_FILE +:+ line ev
    ∧ content w' LOG_FILE = content w LOG_FILE
    ∧ ev !! "served" = Some (JStr "remote")
    ∧ ev !! "url" = Some (JStr p)
    ∧ ev !! "error" = None.
Proof.
  intros Hr Hn. rewrite resolve_remote by auto using is_remote_truthy.
  destruct (proxy_remote_reply email message_id p bytes status ctype w Hn)
    as (w' & -> & Hw & _).
  apply wrote_one in Hw as [Hw Hl].
  exists w'. cbv zeta. split; [done|]. split; [done|]. split; [done|]. by repeat split.
Qed.

End image_reads.

(** ** The guard against repeated opens *)

Section guard.
Context `{P : Platform}.

Lemma eq_str_spec (v : option json) (s : string) :
  eq_str v s = true ↔ v = Some (JStr s).
Proof.
  unfold eq_str. destruct v as [[]|]; try (split; [done|by intros [=]]).
  rewrite bool_decide_eq_true. split; [by intros ->|by intros [= ->]].
Qed.

Lemma eq_opt_str_spec (v : option json) (m : option string) :
  eq_opt_str v m = true
  ↔ match m with
    | Some s => v = Some (JStr s)
    | None => v = None ∨ v = Some JNull
    end.
Proof.
  destruct m as [s|]; [apply eq_str_spec|].
  destruct v as [[]|]; simpl; split; try done; try (by intros [|]); auto.
Qed.

Lemma recent_spec (cutoff : Z) (d : gmap string json) :
  recent cutoff d = true ↔ ∃ t, time_of (JDict d) = Some t ∧ cutoff <= t.
Proof.
  unfold recent, time_of. destruct (d !! "time") as [[]|];
    try (split; [done|by intros (? & [=] & _)]).
  destruct (fromisoformat _) as [[t|]|]; try (split; [done|by intros (? & [=] & _)]).
  rewrite Z.leb_le. split; [by exists t|by intros (? & [= ->] & ?)].
Qed.

Lemma suppresses_spec (email : string) (message_id : option string) (cutoff : Z)
    (d : gmap string json) :
  matches email message_id d && recent cutoff d = true
  ↔ suppresses email message_id cutoff (JDict d).
Proof.
  unfold matches, suppresses.
  rewrite !andb_true_iff, !eq_str_spec, eq_opt_str_spec, recent_spec. split.
  - intros [[[? ?] ?] (t & ? & ?)]. by exists d, t.
  - intros (d' & t & [= <-] & ? & ? & ? & ? & ?). repeat split; try done. by exists t.
Qed.

(** On a log of dictionaries the scan returns, and it returns [true] when
    some record suppresses the open. *)
Lemma scan_spec (email : string) (message_id : option string) (cutoff : Z)
    (es : list json) :
  Forall is_dict es →
  ∃ b, scan email message_id cutoff es = Ok b
       ∧ (b = true ↔ Exists (suppresses email message_id cutoff) es).
Proof.
  induction 1 as [|v es Hv Hes (b & IH & Hb)].
  { exists false. split; [done|]. split; [done|]. by intros ?%Exists_nil. }
  destruct v as [| | | | | |d]; try done. simpl.
  destruct (matches email message_id d && recent cutoff d) eqn:E.
  - exists true. split; [done|]. split; [|done]. intros _.
    by apply Exists_cons_hd, suppresses_spec.
  - exists b. split; [done|]. rewrite Hb, Exists_cons. split; [by right|].
    intros [Hs%suppresses_spec|]; [congruence|done].
Qed.

Lemma guard_spec (email : string) (message_id : option string) (minutes : Z) (w : world) :
  Forall is_dict (records w LOG_FILE) →
  ∃ b w', already_opened_recent email message_id minutes w = (Ok b, w')
          ∧ kept w w' ∧ ticks w' = S (ticks w)
          ∧ (b = true
             ↔ Exists (suppresses email message_id (now w - minutes_us minutes))
                 (records w LOG_FILE)).
Proof.
  intros Hd.
  destruct (already_opened_recent_spec email message_id minutes w) as (w' & H & Hk & Ht).
  destruct (scan_spec email message_id (now w - minutes_us minutes)
              (reverse (records w LOG_FILE))) as (b & Hs & Hb).
  { by apply Forall_reverse. }
  exists b, w'. rewrite H, Hs. split; [done|]. split; [done|]. split; [done|].
  rewrite Hb, !Exists_exists. split; intros (x & Hx & Hsup); exists x.
  - split; [by apply elem_of_reverse|done].
  - split; [by apply elem_of_reverse|done].
Qed.

(** The resolver leaves the primary log and the clock alone. *)
Lemma resolve_log_kept (email : string) (image_param message_id : option string)
    (w : world) :
  ∃ r w', resolve email image_param message_id w = (Ok r, w')
          ∧ content w' LOG_FILE = content w LOG_FILE
          ∧ clock w' = clock w ∧ (ticks w ≤ ticks w')%nat.
Proof.
  assert (∀ text w1 w2, wrote IMG_READ_FILE text w1 w2 →
            content w2 LOG_FILE = content w1 LOG_FILE ∧ clock w2 = clock w1) as Hw.
  { intros text w1 w2 (_ & Ho & Hc & _). split; [by apply Ho|done]. }
  destruct (truthy image_param) eqn:Ht.
  2:{ exists placeholder, w. by rewrite resolve_absent. }
  destruct image_param as [p|]; [|done].
  destruct (is_remote p) eqn:Hr.
  - rewrite resolve_remote by done. destruct (net w p) as [err|status ctype [bytes|err]] eqn:Hn.
    + destruct (proxy_remote_error email message_id p err w Hn) as (w' & -> & H & Hk).
      apply Hw in H as [? ?]. eexists _, w'. split; [done|]. repeat split; [done..|lia].
    + destruct (proxy_remote_reply email message_id p bytes status ctype w Hn)
        as (w' & -> & H & Hk).
      apply Hw in H as [? ?]. eexists _, w'. split; [done|]. repeat split; [done..|lia].
    + destruct (proxy_remote_body_error email message_id p err status ctype w Hn)
        as (w1 & w' & -> & H1 & H & Hk).
      apply Hw in H1 as [? ?]. apply Hw in H as [? ?].
      eexists _, w'. split; [done|]. repeat split; [congruence..|lia].
  - rewrite resolve_local by done. unfold bind.
    destruct (uploads w !! upload_path p) as [[bytes|err]|] eqn:Hu.
    + destruct (serve_local_file email message_id p bytes w Hu) as (w' & -> & H & Hk).
      apply Hw in H as [? ?]. eexists _, w'. split; [done|]. repeat split; [done..|lia].
    + destruct (serve_local_unreadable email message_id p err w Hu) as (w' & -> & H & Hk).
      apply Hw in H as [? ?]. eexists _, w'. split; [done|]. repeat split; [done..|lia].
    + rewrite serve_local_missing by done. by eexists _, w.
Qed.

End guard.

(** ** Reading back a time stamp *)

Section stamps_read.
Context `{P : Platform} {L : PlatformLaws P}.
#[local] Arguments String.append !_ _ /.
#[local] Arguments Iso.number : simpl never.

Lemma digit_not_Z (c : ascii) (d : Z) :
  Iso.digit c = Some d → bool_decide (c = "Z"%char) = false.
Proof. destruct c as [[] [] [] [] [] [] [] []]; done. Qed.

Lemma number_mem_Z (n : nat) (acc v : Z) (s r : string) :
  Iso.number n acc s = Some (v, r) → Text.mem "Z" s = Text.mem "Z" r.
Proof.
  revert acc s. induction n as [|n IH]; intros acc s.
  { by intros [= _ ->]. }
  destruct s as [|c s]; [done|].
  change (Iso.number (S n) acc (String c s))
    with (Iso.digit c ≫= λ d, Iso.number n (10 * acc + d) s).
  destruct (Iso.digit c) as [d|] eqn:Ed; [|done]. simpl.
  rewrite (digit_not_Z c d Ed). apply IH.
Qed.

Lemma expect_mem_Z (c : ascii) (s r : string) :
  Iso.expect (Iso.only c) s = Some r → c ≠ "Z"%char → Text.mem "Z" s = Text.mem "Z" r.
Proof.
  destruct s as [|a s]; [done|]. unfold Iso.expect, Iso.only.
  case_bool_decide as Ha; [|done]. intros [= ->] Hc. simpl.
  by rewrite bool_decide_eq_false_2 by congruence.
Qed.

Ltac mem_step H :=
  let E := fresh "E" in
  match type of H with
  | (Iso.number ?n ?a ?s ≫= _) = Some _ =>
      destruct (Iso.number n a s) as [[? ?]|] eqn:E; [|done]; simpl in H;
      apply number_mem_Z in E; rewrite E
  | (Iso.expect ?p ?s ≫= _) = Some _ =>
      destruct (Iso.expect p s) as [?|] eqn:E; [|done]; simpl in H;
      apply expect_mem_Z in E; [|done]; rewrite E
  end.

Lemma read_date_mem_Z (s r : string) (d : Iso.date) :
  Iso.read_date s = Some (d, r) → Text.mem "Z" s = Text.mem "Z" r.
Proof.
  unfold Iso.read_date. intros H. repeat mem_step H. by injection H as _ ->.
Qed.

Lemma read_time_mem_Z (s r : string) (t : Iso.time) :
  Iso.read_time s = Some (t, r) → Text.mem "Z" s = Text.mem "Z" r.
Proof.
  unfold Iso.read_time. intros H. repeat mem_step H.
  match type of H with
  | match ?s with _ => _ end = _ => destruct s as [|c r'] eqn:Es
  end.
  { by injection H as _ ->. }
  destruct c as [[] [] [] [] [] [] [] []]; try (by injection H as _ <-).
  destruct (Iso.number 6 0 r') as [[f r'']|] eqn:E6; [|done].
  simpl in H. injection H as _ <-. apply number_mem_Z in E6. by rewrite <-E6.
Qed.

Lemma well_formed_no_Z (s : string) :
  Iso.well_formed s = true → Text.mem "Z" s = false.
Proof.
  unfold Iso.well_formed, Iso.read.
  destruct (Iso.read_date s) as [[d r]|] eqn:Ed; [|done]. simpl.
  destruct (Iso.expect (Iso.only "T") r) as [r1|] eqn:Ee; [|done]. simpl.
  destruct (Iso.read_time r1) as [[t r2]|] eqn:Et; [|done]. simpl.
  destruct r2; [|done]. intros _.
  rewrite (read_date_mem_Z _ _ _ Ed), (expect_mem_Z _ _ _ Ee) by done.
  by rewrite (read_time_mem_Z _ _ _ Et).
Qed.

Lemma remove_snoc (c : ascii) (s : string) :
  Text.mem c s = false → Text.remove c (s +:+ String c "") = s.
Proof.
  induction s as [|a s IH]; simpl.
  { intros _. by rewrite bool_decide_eq_true_2. }
  intros [Ha Hs]%orb_false_iff. by rewrite Ha, IH.
Qed.

Lemma time_of_stamp (t : Z) (d : gmap string json) :
  is_datetime t →
  time_of (JDict (<["time" := JStr (isoformat t +:+ "Z")]> d)) = Some t.
Proof.
  intros Ht. unfold time_of. rewrite lookup_insert_eq.
  rewrite remove_snoc by (by apply well_formed_no_Z, isoformat_well_formed).
  by rewrite fromisoformat_isoformat.
Qed.

End stamps_read.

(** ** One request at a time *)

Section steps.
Context `{P : Platform}.

Lemma plain_pixel_event (email : string) (image_param message_id : option string)
    (rq : option request) : plain (pixel_event email image_param message_id rq).
Proof. unfold pixel_event. eauto 10 with plain. Qed.

Lemma plain_click_event (email redirect : string) (message_id : option string)
    (rq : request) : plain (click_event email redirect message_id rq).
Proof. unfold click_event. eauto 10 with plain. Qed.

Lemma log_step_kept (w w' : world) :
  kept w w' → (ticks w ≤ ticks w')%nat → log_step w w'.
Proof. intros (Hc & Hk & _) Ht. split; [done|]. split; [done|]. left. apply Hc. Qed.

Lemma log_step_trans (w1 w2 w3 : world) :
  log_step w1 w2 → content w3 LOG_FILE = content w2 LOG_FILE →
  clock w3 = clock w2 → (ticks w2 ≤ ticks w3)%nat → log_step w1 w3.
Proof.
  intros (Hc & Ht & Hl) Hc3 Hk3 Ht3. split; [congruence|]. split; [lia|].
  rewrite Hc3. destruct Hl as [Hl|(d & i & Hd & Hi & Hl)]; [by left|].
  right. exists d, i. split; [done|]. split; [lia|done].
Qed.

Lemma log_step_append (d : gmap string json) (w w0 w1 : world) :
  kept w w0 → (ticks w ≤ ticks w0)%nat → plain d → d !! "time" = None →
  wrote LOG_FILE (line (stamped w0 d)) w0 w1 → ticks w1 = S (ticks w0) →
  log_step w w1.
Proof.
  intros (Hc & Hk & _) Ht Hd Hnt (Hw & _ & Hk1 & _) Ht1.
  split; [congruence|]. split; [lia|]. right. exists d, (ticks w0).
  split; [done|]. split; [lia|]. rewrite Hw, Hc. unfold stamped, now.
  by rewrite Hnt, Hk.
Qed.

(** What [api_img] does before it resolves the image. *)
Lemma api_img_guard (email : string) (image message_id : option string)
    (rq : option request) (w : world) :
  Forall is_dict (records w LOG_FILE) →
  ∃ seen w0 w1,
    (seen = true
     ↔ Exists (suppresses email message_id (now w - minutes_us 10)) (records w LOG_FILE))
    ∧ kept w w0 ∧ ticks w0 = S (ticks w)
    ∧ (if seen then w1 = w0
       else wrote LOG_FILE
              (line (stamped w0 (pixel_event email (decode_image image) message_id rq)))
              w0 w1
            ∧ ticks w1 = S (ticks w0))
    ∧ api_img email image message_id rq w
      = resolve email (decode_image image) message_id w1.
Proof.
  intros Hd.
  destruct (guard_spec email message_id 10 w Hd) as (seen & w0 & Hg & Hk & Ht & Hs).
  exists seen, w0. unfold api_img. destruct seen.
  - exists w0. split; [done|]. split; [done|]. split; [done|]. split; [done|].
    by erewrite bind_ok by done.
  - destruct (append_event_spec LOG_FILE
                (pixel_event email (decode_image image) message_id rq) w0)
      as (w1 & Ha & Hw & Ht1 & _).
    exists w1. split; [done|]. split; [done|]. split; [done|].
    split; [split; [done|]|].
    + rewrite Ht1, stamp_ticks_fresh by no_time. lia.
    + erewrite bind_ok by done. simpl. by erewrite bind_ok by done.
Qed.

Lemma api_img_log_step (email : string) (image message_id : option string)
    (rq : option request) (w : world) :
  log_step w (exec (api_img email image message_id rq) w).
Proof.
  unfold exec, api_img.
  destruct (already_opened_recent_spec email message_id 10 w) as (w0 & Hg & Hk & Ht).
  destruct (scan email message_id _ _) as [seen|e] eqn:Es.
  2:{ erewrite bind_raise by done. simpl. apply log_step_kept; [done|lia]. }
  erewrite bind_ok by done. destruct seen; simpl.
  - erewrite bind_ok by done.
    destruct (resolve_log_kept email (decode_image image) message_id w0)
      as (r & w2 & -> & Hc & Hclk & Ht2). simpl.
    eapply log_step_trans; [apply log_step_kept; [done|lia]|done..].
  - destruct (append_event_spec LOG_FILE
                (pixel_event email (decode_image image) message_id rq) w0)
      as (w1 & Ha & Hw & Ht1 & _).
    erewrite bind_ok by done.
    destruct (resolve_log_kept email (decode_image image) message_id w1)
      as (r & w2 & -> & Hc & Hclk & Ht2). simpl.
    eapply log_step_trans; [|done..].
    eapply (log_step_append _ w w0 w1); try done; [lia|apply plain_pixel_event|no_time|].
    rewrite Ht1, stamp_ticks_fresh by no_time. lia.
Qed.

Lemma api_click_log_step (email redirect : string) (message_id : option string)
    (rq : option request) (w : world) :
  log_step w (exec (api_click email redirect message_id rq) w).
Proof.
  unfold exec, api_click. destruct rq as [rq|].
  2:{ simpl. by apply log_step_kept. }
  destruct (append_event_spec LOG_FILE (click_event email redirect message_id rq) w)
    as (w1 & Ha & Hw & Ht1 & _).
  erewrite bind_ok by done. simpl.
  eapply (log_step_append _ w w w1); try done; [apply plain_click_event|no_time|].
  rewrite Ht1, stamp_ticks_fresh by no_time. lia.
Qed.

Lemma handle_log_step (c : call) (w : world) : log_step w (handle c w).
Proof.
  destruct c as [email image mid rq|email redirect mid rq|email|n| | |]; simpl.
  - apply api_img_log_step.
  - apply api_click_log_step.
  - unfold exec, tracking_by_email.
    destruct (read_jsonl_spec LOG_FILE w) as (w1 & H1 & Hk1 & Ht1 & _).
    destruct (read_jsonl_spec IMG_READ_FILE w1) as (w2 & H2 & Hk2 & Ht2 & _).
    erewrite bind_ok by done. erewrite bind_ok by done.
    assert (log_step w w2) as Hs.
    { apply log_step_kept; [by eapply kept_trans|lia]. }
    unfold bind, lift, ret.
    repeat match goal with
           | |- context [select ?p ?l] => destruct (select p l)
           end; done.
  - unfold exec. destruct (tracking_latest_spec n w) as (w' & -> & Hk & Ht).
    simpl. apply log_step_kept; [done|lia].
  - unfold exec, download_logs.
    destruct (ensure_file_spec LOG_FILE w) as (w1 & H1 & Hk & Ht & _).
    erewrite bind_ok by done. simpl. apply log_step_kept; [done|lia].
  - unfold exec, download_imgreads.
    destruct (ensure_file_spec IMG_READ_FILE w) as (w1 & H1 & Hk & Ht & _).
    erewrite bind_ok by done. simpl. apply log_step_kept; [done|lia].
  - by apply log_step_kept.
Qed.

End steps.

(** ** The primary log over a run of requests *)

Section runs.
Context `{P : Platform} {L : PlatformLaws P}.

Lemma stored_times_dicts (w : world) (ts : list Z) :
  stored_times w ts → Forall is_dict (records w LOG_FILE).
Proof.
  unfold stored_times. induction 1 as [|r t rs ts' (d & -> & _) _ IH]; by constructor.
Qed.

Lemma log_inv_ok (w : world) : log_inv w → log_ok w.
Proof. intros (Hc & ts & Hs & _). split; [done|]. by eapply stored_times_dicts. Qed.

Lemma log_inv_empty (w : world) : content w LOG_FILE = "" → log_inv w.
Proof.
  intros Hc. split; [by rewrite Hc|]. exists []. unfold stored_times, records.
  rewrite Hc. by repeat constructor.
Qed.

Lemma log_inv_step (w w' : world) :
  steady (clock w) → log_inv w → log_step w w' →
  log_inv w' ∧ records w LOG_FILE `prefix_of` records w' LOG_FILE
  ∧ ∃ more, content w' LOG_FILE = content w LOG_FILE +:+ more.
Proof.
  intros [Hdt Hmono] (Hc & ts & Hs & Hsort & Hb) (Hclk & Ht & Hl).
  assert (now w <= now w') as Hnow.
  { unfold now. rewrite Hclk. by apply Hmono. }
  destruct Hl as [Hl|(d & i & Hd & Hi & Hl)].
  - assert (records w' LOG_FILE = records w LOG_FILE) as Hr.
    { unfold records. by rewrite Hl. }
    split; [|split; [by rewrite Hr|exists ""; by rewrite str_app_nil_r]].
    split; [by rewrite Hl|]. exists ts. unfold stored_times. rewrite Hr.
    split; [done|]. split; [done|]. eapply Forall_impl; [done|]. simpl. lia.
  - set (ev := <["time" := JStr (isoformat (clock w i) +:+ "Z")]> d) in *.
    assert (plain ev) as Hev by (apply plain_insert; [apply scalar_str|done]).
    assert (records w' LOG_FILE = records w LOG_FILE ++ [JDict ev]) as Hr.
    { unfold records. rewrite Hl. by apply records_line. }
    split; [|split; [rewrite Hr; by apply prefix_app_r|by eexists]].
    split.
    { rewrite Hl. unfold line. rewrite <-str_app_assoc. apply closed_app_nl. }
    exists (ts ++ [clock w i]). unfold stored_times. rewrite Hr. split; [|split].
    + apply Forall2_app; [done|]. constructor; [|done].
      exists ev. split; [done|]. split; [by apply lookup_insert_eq|].
      by apply time_of_stamp.
    + apply StronglySorted_app. split; [|split; [done|by repeat constructor]].
      intros x1 x2 Hx1 ->%list_elem_of_singleton.
      rewrite Forall_forall in Hb. specialize (Hb x1 Hx1).
      assert (now w <= clock w i) by (apply Hmono; lia). lia.
    + apply Forall_app. split.
      * eapply Forall_impl; [done|]. simpl. lia.
      * constructor; [|done]. unfold now. rewrite Hclk. apply Hmono. lia.
Qed.

Lemma run_log_inv (cs : list call) (w : world) :
  steady (clock w) → log_inv w →
  log_inv (run cs w) ∧ clock (run cs w) = clock w
  ∧ records w LOG_FILE `prefix_of` records (run cs w) LOG_FILE
  ∧ ∃ more, content (run cs w) LOG_FILE = content w LOG_FILE +:+ more.
Proof.
  revert w. induction cs as [|c cs IH]; intros w Hst Hinv.
  { split; [done|]. split; [done|]. split; [done|]. exists "". by rewrite str_app_nil_r. }
  pose proof (handle_log_step c w) as Hstep.
  destruct (log_inv_step w (handle c w) Hst Hinv Hstep) as (Hinv' & Hpre & more & Hmore).
  destruct Hstep as (Hclk & _).
  destruct (IH (handle c w)) as (I1 & I2 & I3 & more' & I4); [by rewrite Hclk|done|].
  change (run (c :: cs) w) with (run cs (handle c w)).
  split; [done|]. split; [congruence|]. split; [by etrans|].
  exists (more +:+ more'). by rewrite I4, Hmore, str_app_assoc.
Qed.

(** C8. On a deployment that starts with an empty primary log and a clock
    that never runs backwards, after any sequence of requests handled one
    after the other every record of the primary log is a dictionary with a
    [time], the stamp of a reading of the clock, and these times never
    decrease along the file; whatever requests follow, the records, and the
    text of the file, stay as a prefix of what the log holds later: nothing
    written is changed or removed. *)
Theorem stored_times_never_decrease (cs : list call) (w0 : world) :
  steady (clock w0) → content w0 LOG_FILE = "" →
  let w := run cs w0 in
  (∃ ts, stored_times w ts ∧ StronglySorted Z.le ts)
  ∧ (∀ cs', records w LOG_FILE `prefix_of` records (run cs' w) LOG_FILE)
  ∧ (∀ cs', ∃ more, content (run cs' w) LOG_FILE = content w LOG_FILE +:+ more).
Proof.
  intros Hst Hc w.
  destruct (run_log_inv cs w0 Hst (log_inv_empty w0 Hc)) as (Hinv & Hclk & _).
  assert (steady (clock w)) as Hst' by (by unfold w; rewrite Hclk).
  split.
  { destruct Hinv as (_ & ts & Hs & Hsort & _). by exists ts. }
  split; intros cs'; by destruct (run_log_inv cs' w Hst' Hinv) as (_ & _ & ? & ?).
Qed.

End runs.

(** ** Two opens *)

Section opens.
Context `{P : Platform} {L : PlatformLaws P}.



(** One call of [api_img] on a sound log: it is suppressed and the log
    stays, or it stores one open. *)
Lemma api_img_log (email : string) (image mid : option string) (rq : option request)
    (w : world) :
  log_ok w →
  let w' := exec (api_img email image mid rq) w in
  let seen := Exists (suppresses email mid (now w - minutes_us 10)) (records w LOG_FILE) in
  log_ok w' ∧ clock w' = clock w ∧ (ticks w < ticks w')%nat
  ∧ (seen → content w' LOG_FILE = content w LOG_FILE
            ∧ records w' LOG_FILE = records w LOG_FILE)
  ∧ (¬ seen →
     let ev := stored_open email image mid rq (clock w (S (ticks w))) in
     content w' LOG_FILE = content w LOG_FILE +:+ line ev
     ∧ records w' LOG_FILE = records w LOG_FILE ++ [JDict ev]).
Proof.
  intros [Hc Hd]. cbv zeta. unfold exec.
  destruct (api_img_guard email image mid rq w Hd)
    as (seen & w0 & w1 & Hseen & (Hk0 & Hclk0 & _) & Ht0 & Hw1 & ->).
  destruct (resolve_log_kept email (decode_image image) mid w1)
    as (r & w2 & -> & Hc2 & Hclk2 & Ht2). simpl.
  assert (∀ wa wb, content wb LOG_FILE = content wa LOG_FILE →
            records wb LOG_FILE = records wa LOG_FILE) as Hrec.
  { intros wa wb E. unfold records. by rewrite E. }
  destruct seen.
  - subst w1. assert (content w2 LOG_FILE = content w LOG_FILE) as E by congruence.
    pose proof (Hrec _ _ E) as Er.
    split; [split; by rewrite ?E, ?Er|]. split; [congruence|]. split; [lia|].
    split; [done|]. intros Hn. destruct Hn. by apply Hseen.
  - destruct Hw1 as [Hw Ht1].
    assert (stamped w0 (pixel_event email (decode_image image) mid rq)
            = stored_open email image mid rq (clock w (S (ticks w)))) as Hev.
    { unfold stamped, stored_open, now.
      replace (pixel_event _ _ _ _ !! "time") with (@None json) by (symmetry; no_time).
      by rewrite Hclk0, Ht0. }
    rewrite Hev in Hw.
    assert (Text.closed (content w0 LOG_FILE) = true) as Hc0 by (by rewrite Hk0).
    assert (plain (stored_open email image mid rq (clock w (S (ticks w))))) as Hp.
    { apply plain_insert; [apply scalar_str|apply plain_pixel_event]. }
    destruct (records_wrote LOG_FILE _ w0 w1 Hc0 Hp Hw) as [Hr1 Hc1].
    destruct Hw as (Hw & _ & Hclk1 & _).
    assert (content w2 LOG_FILE = content w LOG_FILE +:+ line
              (stored_open email image mid rq (clock w (S (ticks w))))) as E.
    { by rewrite Hc2, Hw, Hk0. }
    assert (records w2 LOG_FILE = records w LOG_FILE
              ++ [JDict (stored_open email image mid rq (clock w (S (ticks w))))]) as Er.
    { rewrite (Hrec _ _ Hc2), Hr1. by rewrite (Hrec w w0). }
    split.
    { split; [by rewrite Hc2|]. rewrite Er. apply Forall_app. split; [done|].
      by repeat constructor. }
    split; [congruence|]. split; [lia|]. split; [|done].
    intros Hs. apply Hseen in Hs. done.
Qed.





End opens.

(** * The properties on a deployment *)

(** The handlers run on [Demo.fresh] with [Std]: the hypotheses of the
    theorems above are met there, and the statements of the specification
    that the handlers do not meet are seen to fail. *)

Lemma demo_steady : steady Demo.clock.
Proof.
  assert (Demo.T0 = 63839707200000000) as E by (by vm_compute).
  unfold steady, Demo.clock, is_datetime, MAXORDINAL, DAY_US. rewrite E.
  split; intros; lia.
Qed.

Lemma demo_log_ok : log_ok (P := Std.platform) Demo.fresh.
Proof. split; [done|]. by constructor. Qed.


(** An upload that exists is served and logged once. *)
Lemma resolve_logs_image_read_witness :
  truthy (Some "photo.png") = true
  ∧ ∃ w', resolve (P := Std.platform) "a@x.com" (Some "photo.png") (Some "m1") Demo.fresh
          = (Ok (Response "PNG" "image/png" HEADERS), w')
          ∧ content w' IMG_READ_FILE
            = line (P := Std.platform)
                (stamped (P := Std.platform) Demo.fresh (local_ok "a@x.com" (Some "m1") "photo.png")).
Proof.
  split; [reflexivity|].
  destruct (resolve_logs_image_read (P := Std.platform) "a@x.com" (Some "m1") "photo.png"
              Demo.fresh eq_refl) as [Hlocal _].
  destruct (Hlocal eq_refl) as (_ & Hfile & _).
  destruct (Hfile "PNG") as (w' & Hr & Hw & _); [by vm_compute|].
  exists w'. split; [exact Hr|exact Hw].
Defined.

(** C1, as stated, fails: a request for a local image that is not in the
    upload directory is answered with the placeholder and leaves the
    image-read log without a record. *)
Lemma missing_local_file_not_logged :
  uploads Demo.fresh !! upload_path "missing.png" = None
  ∧ result (api_img (P := Std.platform) "a@x.com" (Some "missing.png") (Some "m1")
              Demo.browser) Demo.fresh = Ok placeholder
  ∧ content (exec (api_img (P := Std.platform) "a@x.com" (Some "missing.png") (Some "m1")
                     Demo.browser) Demo.fresh) IMG_READ_FILE = ""
  ∧ ¬ logs_one_image_read (P := Std.platform) "a@x.com" (Some "missing.png") (Some "m1")
        Demo.fresh.
Proof.
  split; [by vm_compute|]. split; [by vm_compute|]. split; [by vm_compute|].
  intros [ev Hev]. vm_compute content in Hev.
  symmetry in Hev. apply str_app_eq_nil in Hev as [_ Hev]. unfold line in Hev.
  by apply str_app_eq_nil in Hev as [_ ?].
Qed.



Lemma mixed_ok : Forall (entry_ok (P := Std.platform)) mixed.
Proof.
  unfold mixed.
  repeat (apply Forall_cons; split;
          [split; [by vm_compute|split; [by vm_compute|]];
           first [split; by vm_compute | left; by vm_compute | right; by vm_compute]|]).
  constructor.
Qed.

(** C3. [read_jsonl] skips the lines that [json.loads] refuses, not the
    lines that do not decode.  On [mixed_log], where lines that are not JSON
    and a blank line stand between the records, it returns the three
    records.  On [garbled_log], the same log with two bytes that are not
    UTF-8 for a line, it raises [UnicodeDecodeError] and returns no record,
    where the specification has the line skipped: the [for] decodes the
    file, and the [try] holds [json.loads] alone. *)
Theorem read_jsonl_raises_on_undecodable_line :
  result (read_jsonl_bytes (P := Std.platform) LOG_FILE) mixed_log
  = Ok (valid_records mixed)
  ∧ Text.utf8 garbled = false
  ∧ result (read_jsonl_bytes (P := Std.platform) LOG_FILE) garbled_log
    = Raise UnicodeDecodeError
  ∧ content (exec (read_jsonl_bytes (P := Std.platform) LOG_FILE) garbled_log) LOG_FILE
    = garbled.
Proof.
  split; [by vm_compute|]. split; [by vm_compute|].
  unfold result, exec.
  destruct (read_jsonl_bytes_spec (P := Std.platform) LOG_FILE garbled_log)
    as (w' & (Hk & _) & _ & ->).
  split; [by vm_compute|]. simpl. rewrite Hk. by vm_compute.
Qed.

(** Reading [mixed_log] as text returns its three records. *)
Lemma read_jsonl_skips_malformed_witness :
  Forall (entry_ok (P := Std.platform)) mixed
  ∧ content mixed_log LOG_FILE = text_of mixed
  ∧ result (read_jsonl (P := Std.platform) LOG_FILE) mixed_log
    = Ok [JDict (click_event "a@x.com" "https://example.com/1" None (Request None None));
          JDict (local_ok "a@x.com" None "photo.png"); JInt 42].
Proof.
  split; [exact mixed_ok|]. split; [by vm_compute|].
  exact (proj1 (read_jsonl_skips_malformed (P := Std.platform) LOG_FILE mixed mixed_log
                  mixed_ok eq_refl)).
Defined.



(** A fetch that times out. *)
Lemma remote_failure_logged_witness :
  is_remote "http://example.com/pic.jpg" = true
  ∧ net Demo.fresh "http://example.com/pic.jpg" = FetchError "timed out"
  ∧ ∃ w', resolve (P := Std.platform) "a@x.com" (Some "http://example.com/pic.jpg")
            (Some "m1") Demo.fresh
          = (Ok placeholder, w')
          ∧ content w' IMG_READ_FILE
            = line (P := Std.platform)
                (<["time" := JStr (Std.isoformat (Demo.clock 0) +:+ "Z")]>
                   (remote_failed "a@x.com" (Some "m1") "http://example.com/pic.jpg"
                      "timed out")).
Proof.
  split; [reflexivity|]. split; [reflexivity|].
  destruct (remote_failure_logged (P := Std.platform) "a@x.com" (Some "m1")
              "http://example.com/pic.jpg" "timed out" Demo.fresh eq_refl
              (or_introl eq_refl))
    as (w' & t & before & Hr & Hc & Hf & _).
  destruct (Hf eq_refl) as [-> ->]. exists w'. split; [exact Hr|exact Hc].
Defined.

(** A 404 reply without a content type is passed on as an image. *)
Lemma remote_reply_any_status_witness :
  is_remote "http://example.com/gone.jpg" = true
  ∧ net Demo.fresh "http://example.com/gone.jpg" = Reply 404 None (Body "not found")
  ∧ ∃ w', resolve (P := Std.platform) "a@x.com" (Some "http://example.com/gone.jpg")
            None Demo.fresh
          = (Ok (Response "not found" "image/jpeg" HEADERS), w').
Proof.
  split; [reflexivity|]. split; [reflexivity|].
  destruct (remote_reply_any_status (P := Std.platform) "a@x.com" None
              "http://example.com/gone.jpg" "not found" 404 None Demo.fresh
              eq_refl eq_refl) as (w' & Hr & _).
  exists w'. exact Hr.
Defined.

(** After [morning], the primary log holds three records with sorted times. *)
Lemma stored_times_never_decrease_witness :
  steady (clock Demo.fresh) ∧ content Demo.fresh LOG_FILE = ""
  ∧ length (records (P := Std.platform) (run (P := Std.platform) morning Demo.fresh)
              LOG_FILE) = 3%nat
  ∧ ∃ ts, stored_times (P := Std.platform) (run (P := Std.platform) morning Demo.fresh) ts
          ∧ StronglySorted Z.le ts.
Proof.
  split; [exact demo_steady|]. split; [reflexivity|]. split; [by vm_compute|].
  exact (proj1 (stored_times_never_decrease (P := Std.platform) (L := std_laws) morning
                  Demo.fresh demo_steady eq_refl)).
Defined.


(** * More on the helpers and the handlers *)

(** ** [ensure_file] *)

(** X1. On either log path, and a file system that works, [ensure_file]
    never truncates: afterwards the file exists with the text it had (empty
    when it was missing), no other file has changed, the directory of the
    path is there, and a second call changes nothing more. *)
Theorem ensure_file_keeps_text (path : string) (w : world) :
  path = LOG_FILE ∨ path = IMG_READ_FILE →
  let w1 := exec (ensure_file path) w in
  result (ensure_file path) w = Ok ()
  ∧ files w1 !! path = Some (content w path)
  ∧ (∀ q, q ≠ path → files w1 !! q = files w !! q)
  ∧ log_dir path ∈ dirs w1
  ∧ exec (ensure_file path) w1 = w1.
Proof.
  intros _. cbv zeta.
  unfold result, exec, ensure_file, bind, makedirs, path_exists, truncate, ret, content.
  simpl. destruct (files w !! path) as [c|] eqn:E.
  - rewrite bool_decide_eq_true_2 by done. simpl. rewrite E.
    rewrite bool_decide_eq_true_2 by done. simpl.
    split; [done|]. split; [done|]. split; [done|].
    split; [by apply elem_of_union_r, elem_of_union_l, elem_of_singleton|].
    unfold set_dirs. simpl. f_equal. by rewrite <-(assoc_L (∪)), (idemp_L (∪)).
  - rewrite bool_decide_eq_false_2 by (by intros [? ?]). simpl.
    rewrite lookup_insert_eq. rewrite bool_decide_eq_true_2 by done. simpl.
    split; [done|]. split; [done|].
    split; [by intros q ?; rewrite lookup_insert_ne|].
    split; [by apply elem_of_union_r, elem_of_union_l, elem_of_singleton|].
    unfold set_dirs, set_files. simpl. f_equal. by rewrite <-(assoc_L (∪)), (idemp_L (∪)).
Qed.

(** The primary log of [opened_once] stays as it is. *)
Lemma ensure_file_keeps_text_witness :
  files (exec (ensure_file LOG_FILE) opened_once) !! LOG_FILE
  = Some (content opened_once LOG_FILE).
Proof.
  exact (proj1 (proj2 (ensure_file_keeps_text LOG_FILE opened_once (or_introl eq_refl)))).
Defined.

(** ** [read_jsonl] and line endings *)

Section endings.
Context `{P : Platform}.
Import Text.
#[local] Arguments String.append !_ _ /.

Lemma omap_cons_one {A B} (f : A → option B) (x : A) (l : list A) :
  omap f (x :: l) = match f x with Some y => [y] | None => [] end ++ omap f l.
Proof. simpl. by destruct (f x). Qed.

Lemma readlines_go_body (b : bool) (cur body s : string) :
  mem LF body = false → mem CR body = false →
  readlines_go b cur (body +:+ s)
  = readlines_go (b && bool_decide (body = "")) (cur +:+ body) s.
Proof.
  revert b cur. induction body as [|c body IH]; intros b cur HLF HCR.
  { rewrite str_app_nil_l, str_app_nil_r. by destruct b. }
  simpl in HLF, HCR. apply orb_false_iff in HLF as [HLF1 HLF2].
  apply orb_false_iff in HCR as [HCR1 HCR2].
  rewrite str_app_cons. simpl. rewrite HLF1, HCR1, IH by done.
  rewrite ?andb_false_l, ?andb_false_r.
  by rewrite str_app_snoc.
Qed.

Lemma readlines_go_last (b : bool) (t : string) :
  mem LF t = false → mem CR t = false →
  readlines_go b "" t = match t with "" => [] | _ => [t] end.
Proof.
  intros HLF HCR. rewrite <-(str_app_nil_r t) at 1.
  rewrite readlines_go_body by done. rewrite str_app_nil_l.
  destruct t; [by destruct b|]. by rewrite andb_false_r.
Qed.

Lemma parse_line_bare (e : entry) :
  entry_ok e →
  parse_line (entry_text e)
  = match e with Valid _ v => Some v | Malformed _ => None end.
Proof.
  intros (_ & _ & He). unfold parse_line.
  destruct e as [t v|t]; simpl in *.
  - destruct He as [Hne ->]. by rewrite bool_decide_eq_false_2.
  - case_bool_decide; [done|]. by destruct He.
Qed.

Lemma records_text_with (b : bool) (es : list (entry * ending)) (e : entry) :
  Forall (λ et, entry_ok et.1) es → entry_ok e →
  omap parse_line (readlines_go b "" (text_with es (entry_text e)))
  = valid_records (es.*1 ++ [e]).
Proof.
  intros Hes He. revert b. induction Hes as [|[e1 t] es He1 Hes IH]; intros b.
  { destruct He as (HLF & HCR & He'). simpl.
    rewrite readlines_go_last by done.
    pose proof (parse_line_bare e (conj HLF (conj HCR He'))) as Hp.
    destruct (entry_text e) eqn:Et.
    - destruct e as [t v|t]; simpl in *; [|done]. subst t. by destruct He' as [[] _].
    - simpl. rewrite Hp. by destruct e. }
  pose proof (parse_line_entry e1 He1) as Hp.
  destruct He1 as (HLF & HCR & He1'). simpl in HLF, HCR.
  change (text_with ((e1, t) :: es) (entry_text e))
    with ((entry_text e1 +:+ ending_text t) +:+ text_with es (entry_text e)).
  rewrite str_app_assoc, readlines_go_body, str_app_nil_l by done.
  destruct t; simpl ending_text.
  - unfold nl at 1. rewrite str_app_cons, str_app_nil_l. simpl readlines_go.
    destruct (b && bool_decide (entry_text e1 = "")) eqn:Eb.
    + apply andb_true_iff in Eb as [_ Eb%bool_decide_eq_true].
      rewrite Eb, IH.
      destruct e1 as [t v|t]; [|done]. simpl in Eb, He1'. subst t.
      by destruct He1' as [[] _].
    + rewrite omap_cons_one, Hp, IH. by destruct e1.
  - unfold nl at 1. rewrite !str_app_cons, str_app_nil_l. simpl readlines_go.
    rewrite omap_cons_one, Hp, IH. by destruct e1.
  - rewrite !str_app_cons, str_app_nil_l. simpl readlines_go.
    rewrite omap_cons_one, Hp, IH. by destruct e1.
Qed.

(** X2. [read_jsonl] takes a line to end at a line feed, at a carriage
    return and a line feed, or at a carriage return alone, and the last
    line to end with the file: on a file of such lines that decodes as UTF-8
    it returns the records of the lines, the last one included, in the order
    of the file; on one that does not decode it raises
    [UnicodeDecodeError]. *)
Theorem read_jsonl_any_line_ending (path : string) (es : list (entry * ending))
    (e : entry) (w : world) :
  Forall (λ et, entry_ok et.1) es → entry_ok e →
  content w path = text_with es (entry_text e) →
  result (read_jsonl_bytes path) w
  = if utf8 (content w path) then Ok (valid_records (es.*1 ++ [e]))
    else Raise UnicodeDecodeError.
Proof.
  intros Hes He Hc. unfold result.
  destruct (read_jsonl_bytes_spec path w) as (w' & _ & _ & ->). simpl.
  unfold records, readlines. by rewrite Hc, records_text_with.
Qed.

End endings.

Lemma edited_ok : Forall (λ et, entry_ok (P := Std.platform) et.1) edited.
Proof.
  unfold edited.
  repeat (apply Forall_cons; split;
          [split; [by vm_compute|split; [by vm_compute|]];
           first [split; by vm_compute | left; by vm_compute | right; by vm_compute]|]).
  constructor.
Qed.

(** The log [edited_log] holds three records. *)
Lemma read_jsonl_any_line_ending_witness :
  result (read_jsonl_bytes (P := Std.platform) LOG_FILE) edited_log
  = Ok [JDict (local_ok "a@x.com" None "photo.png"); JList [JInt 1; JInt 2]; JInt 42].
Proof.
  assert (entry_ok (P := Std.platform) (Valid "42" (JInt 42))) as Hlast.
  { split; [by vm_compute|]. split; [by vm_compute|]. split; by vm_compute. }
  assert (Text.utf8 (content edited_log LOG_FILE) = true) as Hu by (by vm_compute).
  pose proof (read_jsonl_any_line_ending (P := Std.platform) LOG_FILE edited
                (Valid "42" (JInt 42)) edited_log edited_ok Hlast eq_refl) as H.
  rewrite Hu in H. exact H.
Defined.

(** ** The query endpoints at their bounds *)

Section bounds.
Context `{P : Platform}.

Lemma read_jsonl_files (path : string) (w : world) :
  files (exec (read_jsonl path) w)
  = match files w !! path with Some _ => files w | None => <[path := ""]> (files w) end.
Proof.
  unfold exec, read_jsonl, ensure_file, bind, makedirs, path_exists, truncate, read_text, ret.
  simpl. destruct (files w !! path) eqn:E.
  - by rewrite bool_decide_eq_true_2 by done.
  - by rewrite bool_decide_eq_false_2 by (by intros [? ?]).
Qed.



(** X4. On a deployment that has no log file yet the query endpoints
    return empty lists, and leave the two log files behind, empty. *)
Theorem queries_on_fresh_deployment (n : option Z) (email : string) (w : world) :
  files w !! LOG_FILE = None → files w !! IMG_READ_FILE = None →
  result (tracking_latest n) w = Ok (Latest [] [])
  ∧ result (tracking_by_email email) w = Ok (ByEmail [] [] [])
  ∧ files (exec (tracking_latest n) w) !! LOG_FILE = Some ""
  ∧ files (exec (tracking_latest n) w) !! IMG_READ_FILE = Some ""
  ∧ files (exec (tracking_by_email email) w) !! LOG_FILE = Some ""
  ∧ files (exec (tracking_by_email email) w) !! IMG_READ_FILE = Some "".
Proof.
  intros H1 H2. assert (LOG_FILE ≠ IMG_READ_FILE) as Hne by done.
  pose proof (read_jsonl_files LOG_FILE w) as F1. rewrite H1 in F1.
  destruct (read_jsonl_spec LOG_FILE w) as (w1 & R1 & _).
  unfold exec in F1. rewrite R1 in F1. simpl in F1.
  pose proof (read_jsonl_files IMG_READ_FILE w1) as F2.
  rewrite F1 in F2. rewrite lookup_insert_ne in F2. 2:{ exact Hne. } rewrite H2 in F2.
  destruct (read_jsonl_spec IMG_READ_FILE w1) as (w2 & R2 & _).
  unfold exec in F2. rewrite R2 in F2. simpl in F2.
  assert (records w LOG_FILE = []) as E1 by (unfold records, content; by rewrite H1).
  assert (records w1 IMG_READ_FILE = []) as E2.
  { unfold records, content. rewrite F1, lookup_insert_ne by done. by rewrite H2. }
  rewrite E1 in R1. rewrite E2 in R2.
  unfold result, exec, tracking_latest, tracking_by_email.
  repeat (erewrite bind_ok by done). unfold bind, lift, ret. simpl.
  rewrite F2, lookup_insert_eq, lookup_insert_ne, lookup_insert_eq by done.
  unfold slice_to. change (reverse (@nil json)) with (@nil json). rewrite !take_nil.
  by destruct (0 <=? default 200 n).
Qed.

End bounds.


(** The queries on [Demo.fresh]. *)
Lemma queries_on_fresh_deployment_witness :
  result (tracking_latest (P := Std.platform) None) Demo.fresh = Ok (Latest [] [])
  ∧ result (tracking_by_email (P := Std.platform) "a@x.com") Demo.fresh
    = Ok (ByEmail [] [] []).
Proof.
  destruct (queries_on_fresh_deployment (P := Std.platform) None "a@x.com" Demo.fresh
              eq_refl eq_refl) as (H1 & H2 & _).
  by split.
Defined.

(** ** Clicks *)

Section clicks.
Context `{P : Platform} {L : PlatformLaws P}.

Lemma api_click_spec (email redirect : string) (mid : option string) (rq : request)
    (w : world) :
  ∃ w', api_click email redirect mid (Some rq) w = (Ok (RedirectResponse redirect 302), w')
        ∧ wrote LOG_FILE
            (line (<["time" := JStr (isoformat (now w) +:+ "Z")]>
                     (click_event email redirect mid rq))) w w'
        ∧ ticks w' = S (ticks w).
Proof.
  destruct (append_event_spec LOG_FILE (click_event email redirect mid rq) w)
    as (w' & Ha & Hw & Ht & _).
  exists w'. split; [by unfold api_click; erewrite bind_ok by done|].
  split; [|rewrite Ht, stamp_ticks_fresh by no_time; lia].
  unfold stamped in Hw.
  by replace (click_event _ _ _ _ !! "time") with (@None json) in Hw by (symmetry; no_time).
Qed.

(** X5. A click with a request object is always stored: [api_click]
    appends to the primary log one record, the click stamped with the
    reading of the clock, touches no other file, never consults the records
    already there, and returns [RedirectResponse(url=redirect,
    status_code=302)], the [redirect] of the query handed to the response
    class unchecked and unchanged.  Without a request object it raises
    before anything is written. *)
Theorem api_click_stores_and_redirects (email redirect : string) (mid : option string)
    (rq : request) (w : world) :
  Text.closed (content w LOG_FILE) = true →
  let w' := exec (api_click email redirect mid (Some rq)) w in
  let ev := <["time" := JStr (isoformat (now w) +:+ "Z")]>
              (click_event email redirect mid rq) in
  result (api_click email redirect mid (Some rq)) w = Ok (RedirectResponse redirect 302)
  ∧ content w' LOG_FILE = content w LOG_FILE +:+ line ev
  ∧ records w' LOG_FILE = records w LOG_FILE ++ [JDict ev]
  ∧ (∀ q, q ≠ LOG_FILE → content w' q = content w q)
  ∧ ticks w' = S (ticks w)
  ∧ api_click email redirect mid None w = (Raise AttributeError, w).
Proof.
  intros Hc. cbv zeta. unfold result, exec.
  destruct (api_click_spec email redirect mid rq w) as (w' & -> & Hw & Ht). simpl.
  assert (plain (<["time" := JStr (isoformat (now w) +:+ "Z")]>
                   (click_event email redirect mid rq))) as Hp.
  { apply plain_insert; [apply scalar_str|apply plain_click_event]. }
  destruct (records_wrote LOG_FILE _ w w' Hc Hp Hw) as [Hr _].
  destruct Hw as (Hw & Ho & _). by repeat split.
Qed.

(** X6. Clicks are not deduplicated: [k] identical clicks in a row leave
    [k] records more in the primary log, alike but for their times, the
    successive readings of the clock. *)
Theorem clicks_are_all_stored (email redirect : string) (mid : option string)
    (rq : request) (k : nat) (w : world) :
  Text.closed (content w LOG_FILE) = true →
  records (run (replicate k (ApiClick email redirect mid (Some rq))) w) LOG_FILE
  = records w LOG_FILE
    ++ (nth_click email redirect mid rq (clock w) (ticks w) <$> seq 0 k).
Proof.
  revert w. induction k as [|k IH]; intros w Hc.
  { simpl. by rewrite app_nil_r. }
  change (run (replicate (S k) ?c) w) with (run (replicate k c) (handle c w)).
  change (handle (ApiClick email redirect mid (Some rq)) w)
    with (exec (api_click email redirect mid (Some rq)) w).
  unfold exec.
  destruct (api_click_spec email redirect mid rq w) as (w' & -> & Hw & Ht). simpl.
  assert (plain (<["time" := JStr (isoformat (now w) +:+ "Z")]>
                   (click_event email redirect mid rq))) as Hp.
  { apply plain_insert; [apply scalar_str|apply plain_click_event]. }
  destruct (records_wrote LOG_FILE _ w w' Hc Hp Hw) as [Hr Hc'].
  rewrite IH, Hr by done. destruct Hw as (_ & _ & -> & _). rewrite Ht.
  rewrite <-app_assoc. f_equal. simpl. f_equal.
  - unfold nth_click, now. by rewrite Nat.add_0_r.
  - rewrite <-fmap_S_seq, <-list_fmap_compose. apply list_fmap_ext.
    intros i x _. unfold nth_click. simpl. by rewrite Nat.add_succ_r.
Qed.

End clicks.

(** A click on [Demo.fresh]. *)
Lemma api_click_stores_and_redirects_witness :
  result (api_click (P := Std.platform) "a@x.com" "https://example.com/1" (Some "m1")
            (Some (Request None None))) Demo.fresh
  = Ok (RedirectResponse "https://example.com/1" 302).
Proof.
  exact (proj1 (api_click_stores_and_redirects (P := Std.platform) (L := std_laws)
                  "a@x.com" "https://example.com/1" (Some "m1") (Request None None)
                  Demo.fresh eq_refl)).
Defined.

(** Three clicks on [Demo.fresh]. *)
Lemma clicks_are_all_stored_witness :
  length (records (P := Std.platform)
            (run (P := Std.platform)
               (replicate 3 (ApiClick "a@x.com" "https://example.com/1" None
                               (Some (Request None None)))) Demo.fresh) LOG_FILE)
  = 3%nat.
Proof.
  rewrite (clicks_are_all_stored (P := Std.platform) (L := std_laws)
             "a@x.com" "https://example.com/1" None (Request None None) 3 Demo.fresh
             eq_refl).
  reflexivity.
Defined.

(** ** Opens, one after the other *)

Section opens_more.
Context `{P : Platform} {L : PlatformLaws P}.


End opens_more.

Section answers.
Context `{P : Platform}.

Lemma resolve_effect (email : string) (image_param message_id : option string)
    (w : world) :
  ∃ body media more w',
    resolve email image_param message_id w = (Ok (Response body media HEADERS), w')
    ∧ wrote IMG_READ_FILE more w w' ∧ (ticks w ≤ ticks w')%nat.
Proof.
  assert (∀ w0, wrote IMG_READ_FILE "" w0 w0) as Hrefl.
  { intros w0. split; [by rewrite str_app_nil_r|done]. }
  destruct (truthy image_param) eqn:Ht.
  2:{ eexists _, _, "", w. by rewrite resolve_absent. }
  destruct image_param as [p|]; [|done].
  destruct (is_remote p) eqn:Hr.
  - rewrite resolve_remote by done.
    destruct (net w p) as [err|status ctype [bytes|err]] eqn:Hn.
    + destruct (proxy_remote_error email message_id p err w Hn) as (w' & -> & H & Hk).
      eexists _, _, _, w'. split; [done|]. split; [done|lia].
    + destruct (proxy_remote_reply email message_id p bytes status ctype w Hn)
        as (w' & -> & H & Hk).
      eexists _, _, _, w'. split; [done|]. split; [done|lia].
    + destruct (proxy_remote_body_error email message_id p err status ctype w Hn)
        as (w1 & w' & -> & H1 & H & Hk).
      eexists _, _, _, w'. split; [done|]. split; [by eapply wrote_wrote|lia].
  - rewrite resolve_local by done. unfold bind.
    destruct (uploads w !! upload_path p) as [[bytes|err]|] eqn:Hu.
    + destruct (serve_local_file email message_id p bytes w Hu) as (w' & -> & H & Hk).
      eexists _, _, _, w'. split; [done|]. split; [done|lia].
    + destruct (serve_local_unreadable email message_id p err w Hu) as (w' & -> & H & Hk).
      eexists _, _, _, w'. split; [done|]. split; [done|lia].
    + rewrite serve_local_missing by done. by eexists _, _, "", w.
Qed.







End answers.





Lemma opened_once_ok : log_ok (P := Std.platform) opened_once.
Proof.
  exact (proj1 (api_img_log (P := Std.platform) (L := std_laws) "a@x.com" None
                  (Some "m1") Demo.browser Demo.fresh demo_log_ok)).
Qed.



(** ** Queries *)

Section selects.
Context `{P : Platform}.

Lemma select_ok (p : gmap string json → bool) (l out : list json) :
  select p l = Ok out
  ↔ Forall is_dict l
    ∧ out = List.filter (λ v, match v with JDict d => p d | _ => false end) l.
Proof.
  revert out. induction l as [|x l IH]; intros out.
  { simpl. split; [by intros [= <-]|by intros [_ ->]]. }
  destruct x as [| | | | | |d];
    try (split; [done|intros [Hd _]; by apply Forall_cons in Hd as [[] _]]).
  simpl. destruct (select p l) as [out'|e].
  - destruct (proj1 (IH out') eq_refl) as [Hd ->]. split.
    + intros [= <-]. split; [by constructor|]. by destruct (p d).
    + intros [_ ->]. by destruct (p d).
  - split; [done|]. intros [Hd _]. apply Forall_cons in Hd as [_ Hd].
    by pose proof (proj2 (IH _) (conj Hd eq_refl)).
Qed.

Lemma select_raise_only (p : gmap string json → bool) (l : list json) (e : exn) :
  select p l = Raise e → e = AttributeError.
Proof.
  induction l as [|x l IH]; [done|].
  destruct x as [| | | | | |d]; try (by intros [= <-]).
  simpl. destruct (select p l) as [out|e']; [done|]. intros [= <-]. by apply IH.
Qed.


(** The answer of [tracking_by_email], from the records of the two logs. *)
Lemma tracking_by_email_result (email : string) (w : world) :
  ∃ w', kept w w' ∧ ticks w' = ticks w
    ∧ tracking_by_email email w
      = (match select (λ x, eq_str (x !! "type") "pixel_open"
                              && eq_str (x !! "email") email) (records w LOG_FILE),
               select (λ x, eq_str (x !! "type") "click"
                              && eq_str (x !! "email") email) (records w LOG_FILE),
               select (λ x, eq_str (x !! "email") email) (records w IMG_READ_FILE)
         with
         | Ok o, Ok c, Ok i => Ok (ByEmail o c i)
         | _, _, _ => Raise AttributeError
         end, w').
Proof.
  unfold tracking_by_email.
  destruct (read_jsonl_spec LOG_FILE w) as (w1 & H1 & Hk1 & Ht1 & _).
  destruct (read_jsonl_spec IMG_READ_FILE w1) as (w2 & H2 & Hk2 & Ht2 & _).
  exists w2. split; [by eapply kept_trans|]. split; [lia|].
  erewrite bind_ok by done. erewrite bind_ok by done.
  rewrite (records_kept _ w w1) by done.
  unfold bind, lift, ret.
  destruct (select _ (records w LOG_FILE)) as [o|e] eqn:E1.
  2:{ by rewrite (select_raise_only _ _ _ E1). }
  destruct (select _ (records w LOG_FILE)) as [c|e] eqn:E2 in |- *.
  2:{ by rewrite (select_raise_only _ _ _ E2). }
  destruct (select _ (records w IMG_READ_FILE)) as [i|e] eqn:E3; [done|].
  by rewrite (select_raise_only _ _ _ E3).
Qed.

Lemma by_email_raise (email : string) (w : world) (e : exn) :
  result (tracking_by_email email) w = Raise e → e = AttributeError.
Proof.
  unfold result. destruct (tracking_by_email_result email w) as (w' & _ & _ & ->).
  simpl. repeat destruct (select _ _); try done; by intros [= <-].
Qed.


Lemma query_kept (c : call) (w : world) :
  is_query c = true → kept w (handle c w) ∧ ticks (handle c w) = ticks w.
Proof.
  destruct c as [| |email|n| | |]; try done; intros _; simpl; unfold exec.
  - destruct (tracking_by_email_result email w) as (w' & Hk & Ht & ->). by split.
  - destruct (tracking_latest_spec n w) as (w' & -> & Hk & Ht). by split.
  - unfold download_logs.
    destruct (ensure_file_spec LOG_FILE w) as (w' & H & Hk & Ht & _).
    erewrite bind_ok by done. by split.
  - unfold download_imgreads.
    destruct (ensure_file_spec IMG_READ_FILE w) as (w' & H & Hk & Ht & _).
    erewrite bind_ok by done. by split.
Qed.

(** X12. The query endpoints only read: after any number of calls of
    [tracking_by_email], [tracking_latest], the two downloads and
    [api_test], the ones that raise included, every file holds the text it
    held, and the clock has not been read. *)
Theorem queries_change_nothing (cs : list call) (w : world) :
  forallb is_query cs = true →
  (∀ q, content (run cs w) q = content w q)
  ∧ (∀ q, records (run cs w) q = records w q)
  ∧ ticks (run cs w) = ticks w
  ∧ uploads (run cs w) = uploads w.
Proof.
  revert w. induction cs as [|c cs IH]; intros w Hq; [done|].
  simpl in Hq. apply andb_true_iff in Hq as [Hc Hq].
  change (run (c :: cs) w) with (run cs (handle c w)).
  destruct (query_kept c w Hc) as [(Hk & _ & _ & Hu) Ht].
  destruct (IH (handle c w) Hq) as (I1 & I2 & I3 & I4).
  split; [intros q; by rewrite I1|].
  split; [intros q; rewrite I2; unfold records; by rewrite Hk|].
  split; congruence.
Qed.

(** ** Nothing is ever rewritten *)

Lemma grows_refl (w : world) : grows w w.
Proof. split; [|split]; try (exists ""; by rewrite str_app_nil_r). done. Qed.

Lemma grows_trans (w1 w2 w3 : world) : grows w1 w2 → grows w2 w3 → grows w1 w3.
Proof.
  intros ([a Ha] & [b Hb] & Ho & ? & ? & ? & ?) ([a' Ha'] & [b' Hb'] & Ho' & ? & ? & ? & ?).
  split; [exists (a +:+ a'); by rewrite Ha', Ha, str_app_assoc|].
  split; [exists (b +:+ b'); by rewrite Hb', Hb, str_app_assoc|].
  split; [intros q ? ?; by rewrite Ho', Ho|].
  repeat split; try congruence. lia.
Qed.

Lemma kept_grows (w w' : world) : kept w w' → (ticks w ≤ ticks w')%nat → grows w w'.
Proof.
  intros (Hk & ? & ? & ?) ?.
  split; [exists ""; by rewrite str_app_nil_r, Hk|].
  split; [exists ""; by rewrite str_app_nil_r, Hk|]. by repeat split.
Qed.

Lemma wrote_grows (path text : string) (w w' : world) :
  path = LOG_FILE ∨ path = IMG_READ_FILE →
  wrote path text w w' → (ticks w ≤ ticks w')%nat → grows w w'.
Proof.
  intros Hp (Hw & Ho & ? & ? & ?) ?.
  assert (∀ q, ∃ more, content w' q = content w q +:+ more) as Hall.
  { intros q. destruct (decide (q = path)) as [->|Hq]; [by exists text|].
    exists "". by rewrite str_app_nil_r, Ho. }
  split; [done|]. split; [done|]. split; [|done].
  intros q ? ?. apply Ho. by destruct Hp as [->| ->].
Qed.

Lemma handle_grows (c : call) (w : world) : grows w (handle c w).
Proof.
  destruct (is_query c) eqn:Hq.
  { destruct (query_kept c w Hq) as [Hk Ht]. apply kept_grows; [done|lia]. }
  destruct c as [email image mid rq|email redirect mid [rq|]| | | | |]; try done;
    unfold handle.
  - unfold exec, api_img.
    destruct (already_opened_recent_spec email mid 10 w) as (w0 & Hg & Hk & Ht).
    assert (grows w w0) as G0 by (apply kept_grows; [done|lia]).
    destruct (scan email mid _ _) as [seen|e] eqn:Es.
    2:{ by erewrite bind_raise by done. }
    erewrite bind_ok by done. destruct seen; simpl.
    + erewrite bind_ok by done.
      destruct (resolve_effect email (decode_image image) mid w0)
        as (body & media & more & w2 & -> & Hw & Ht2). simpl.
      eapply grows_trans; [done|]. eapply wrote_grows; [by right|done..].
    + destruct (append_event_spec LOG_FILE
                  (pixel_event email (decode_image image) mid rq) w0)
        as (w1 & Ha & Hw1 & Ht1 & _).
      erewrite bind_ok by done.
      destruct (resolve_effect email (decode_image image) mid w1)
        as (body & media & more & w2 & -> & Hw & Ht2). simpl.
      eapply grows_trans; [done|]. eapply grows_trans.
      * eapply wrote_grows; [by left|done|lia].
      * eapply wrote_grows; [by right|done..].
  - unfold exec.
    destruct (api_click_spec email redirect mid rq w) as (w' & -> & Hw & Ht). simpl.
    eapply wrote_grows; [by left|done|lia].
  - apply grows_refl.
Qed.

Lemma run_grows (cs : list call) (w : world) : grows w (run cs w).
Proof.
  revert w. induction cs as [|c cs IH]; intros w; [apply grows_refl|].
  change (run (c :: cs) w) with (run cs (handle c w)).
  eapply grows_trans; [apply handle_grows|apply IH].
Qed.

(** X13. No request rewrites or removes anything: after any sequence of
    requests, from any state, each of the two logs holds the text it held
    followed by what was appended, every other file the handlers can name
    holds what it held, and the upload directory is as it was. *)
Theorem run_only_appends (cs : list call) (w : world) :
  (∃ more, content (run cs w) LOG_FILE = content w LOG_FILE +:+ more)
  ∧ (∃ more, content (run cs w) IMG_READ_FILE = content w IMG_READ_FILE +:+ more)
  ∧ (∀ q, q ≠ LOG_FILE → q ≠ IMG_READ_FILE → content (run cs w) q = content w q)
  ∧ uploads (run cs w) = uploads w.
Proof.
  destruct (run_grows cs w) as (H1 & H2 & H3 & _ & _ & H4 & _). by repeat split.
Qed.

End selects.

(** The queries on a deployment with one stored open. *)
Lemma queries_change_nothing_witness :
  content (run (P := Std.platform)
             [TrackingLatest None; TrackingByEmail "a@x.com"; DownloadLogs;
              DownloadImgreads; ApiTest] opened_once) LOG_FILE
  = content opened_once LOG_FILE.
Proof.
  apply (queries_change_nothing (P := Std.platform)
           [TrackingLatest None; TrackingByEmail "a@x.com"; DownloadLogs;
            DownloadImgreads; ApiTest] opened_once eq_refl).
Defined.

(** ** What is stored is what the queries return *)

Section round_trips.
Context `{P : Platform} {L : PlatformLaws P}.

Lemma filter_one {A} (f : A → bool) (x : A) :
  List.filter f [x] = if f x then [x] else [].
Proof. done. Qed.

Lemma by_email_ok (email : string) (w : world) (r : by_email) :
  result (tracking_by_email email) w = Ok r
  ↔ Forall is_dict (records w LOG_FILE) ∧ Forall is_dict (records w IMG_READ_FILE)
    ∧ r = ByEmail (List.filter (of_type "pixel_open" email) (records w LOG_FILE))
                  (List.filter (of_type "click" email) (records w LOG_FILE))
                  (List.filter (of_email email) (records w IMG_READ_FILE)).
Proof.
  unfold result.
  destruct (tracking_by_email_result email w) as (w' & _ & _ & ->). simpl. split.
  - destruct (select _ (records w LOG_FILE)) as [o|] eqn:Eo; [|done].
    destruct (select _ (records w LOG_FILE)) as [c|] eqn:Ec in |- *; [|done].
    destruct (select _ (records w IMG_READ_FILE)) as [i|] eqn:Ei; [|done].
    apply select_ok in Eo as [Hl ->]. apply select_ok in Ec as [_ ->].
    apply select_ok in Ei as [Hr ->]. by intros [= <-].
  - intros (Hl & Hr & ->).
    rewrite (proj2 (select_ok _ _ _) (conj Hl eq_refl)).
    rewrite (proj2 (select_ok _ _ _) (conj Hl eq_refl)).
    by rewrite (proj2 (select_ok _ _ _) (conj Hr eq_refl)).
Qed.

(** X14. A click that was stored is what [tracking_by_email] returns last
    among the clicks of its [email]: after [api_click] the answer for that
    [email] is the answer from before with the record of the click at the
    end of [clicks], [opens] and [img_reads] being as they were, and the
    answer for any other [email] is as it was. *)
Theorem click_shows_in_by_email (email redirect : string) (mid : option string)
    (rq : request) (w : world) (r : by_email) :
  Text.closed (content w LOG_FILE) = true →
  result (tracking_by_email email) w = Ok r →
  let w' := exec (api_click email redirect mid (Some rq)) w in
  let ev := <["time" := JStr (isoformat (now w) +:+ "Z")]>
              (click_event email redirect mid rq) in
  result (tracking_by_email email) w'
  = Ok (ByEmail (opens r) (clicks r ++ [JDict ev]) (by_email_img_reads r))
  ∧ (∀ email', email' ≠ email →
       result (tracking_by_email email') w' = result (tracking_by_email email') w).
Proof.
  intros Hc Hr. cbv zeta. unfold exec.
  destruct (api_click_spec email redirect mid rq w) as (w' & -> & Hw & Ht). simpl.
  set (ev := <["time" := JStr (isoformat (now w) +:+ "Z")]>
               (click_event email redirect mid rq)) in *.
  assert (plain ev) as Hp.
  { apply plain_insert; [apply scalar_str|apply plain_click_event]. }
  destruct (records_wrote LOG_FILE _ w w' Hc Hp Hw) as [Hl _].
  assert (records w' IMG_READ_FILE = records w IMG_READ_FILE) as Hi.
  { eapply (records_other LOG_FILE IMG_READ_FILE); [done|exact Hw]. }
  apply by_email_ok in Hr as (Hdl & Hdr & ->). simpl.
  assert (∀ e ty, of_type ty e (JDict ev)
                  = bool_decide (ty = "click") && bool_decide (e = email)) as Hty.
  { intros e ty.
    assert (ev !! "type" = Some (JStr "click") ∧ ev !! "email" = Some (JStr email))
      as [E1 E2] by done.
    unfold of_type, eq_str. rewrite E1, E2.
    f_equal; apply bool_decide_ext; naive_solver. }
  split.
  - apply by_email_ok. rewrite Hl, Hi. split; [|split; [done|]].
    { apply Forall_app. split; [done|]. by repeat constructor. }
    rewrite !List.filter_app, !filter_one, !Hty.
    rewrite (bool_decide_eq_false_2 ("pixel_open" = "click")) by done.
    rewrite !bool_decide_eq_true_2 by done. simpl. by rewrite app_nil_r.
  - intros email' Hne.
    assert (∀ rr, result (tracking_by_email email') w' = Ok rr
                  ↔ result (tracking_by_email email') w = Ok rr) as Hsame.
    { intros rr. rewrite !by_email_ok, Hl, Hi, !List.filter_app, !filter_one.
      rewrite !Hty, (bool_decide_eq_false_2 (email' = email)) by done.
      rewrite !andb_false_r, !app_nil_r, Forall_app.
      split; [intros ([? _] & ? & ?)|intros (? & ? & ?)]; repeat split; try done.
      by repeat constructor. }
    pose proof (by_email_raise email' w') as R'.
    pose proof (by_email_raise email' w) as R.
    destruct (result (tracking_by_email email') w') as [rr|e'].
    + symmetry. by apply Hsame.
    + destruct (result (tracking_by_email email') w) as [rr|e].
      * by pose proof (proj2 (Hsame rr) eq_refl).
      * by rewrite (R' _ eq_refl), (R _ eq_refl).
Qed.



End round_trips.


(** A click on [opened_once], then the events of [a@x.com]. *)
Lemma click_shows_in_by_email_witness :
  ∃ r ev, length (opens r) = 1%nat ∧ clicks r = []
    ∧ result (tracking_by_email (P := Std.platform) "a@x.com")
        (exec (api_click (P := Std.platform) "a@x.com" "https://example.com/1"
                 (Some "m1") (Some (Request None None))) opened_once)
      = Ok (ByEmail (opens r) (clicks r ++ [JDict ev]) (by_email_img_reads r)).
Proof.
  assert (∃ r, result (tracking_by_email (P := Std.platform) "a@x.com") opened_once = Ok r
               ∧ length (opens r) = 1%nat ∧ clicks r = []) as (r & E & Ho & Hc).
  { vm_compute. eexists. split; [reflexivity|]. split; reflexivity. }
  exists r. eexists. split; [exact Ho|]. split; [exact Hc|].
  exact (proj1 (click_shows_in_by_email (P := Std.platform) (L := std_laws)
                  "a@x.com" "https://example.com/1" (Some "m1") (Request None None)
                  opened_once r (proj1 opened_once_ok) E)).
Defined.


(** ** Both logs over a run of requests *)

Section both_logs.
Context `{P : Platform} {L : PlatformLaws P}.

Lemma line_step_same (path : string) (w w' : world) :
  clock w' = clock w → (ticks w ≤ ticks w')%nat → content w' path = content w path →
  line_step path w w'.
Proof. intros. split; [done|]. split; [done|]. by left. Qed.

Lemma line_step_wrote (path : string) (d : gmap string json) (w w' : world) :
  plain d → d !! "time" = None →
  wrote path (line (stamped w d)) w w' → ticks w' = S (ticks w) →
  line_step path w w'.
Proof.
  intros Hd Hn (Hw & _ & Hclk & _) Ht. split; [done|]. split; [lia|].
  right. exists d, (ticks w). split; [done|]. split; [lia|].
  rewrite Hw. unfold stamped, now. by rewrite Hn.
Qed.

Lemma plain_local_ok (email : string) (mid : option string) (p : string) :
  plain (local_ok email mid p).
Proof. unfold local_ok. eauto 10 with plain. Qed.

Lemma plain_local_failed (email : string) (mid : option string) (err : string) :
  plain (local_failed email mid err).
Proof. unfold local_failed. eauto 10 with plain. Qed.

Lemma plain_remote_ok (email : string) (mid : option string) (p : string) :
  plain (remote_ok email mid p).
Proof. unfold remote_ok. eauto 10 with plain. Qed.

Lemma plain_remote_failed (email : string) (mid : option string) (p err : string) :
  plain (remote_failed email mid p err).
Proof. unfold remote_failed. eauto 10 with plain. Qed.

Lemma proxy_remote_body_error_steps (email : string) (mid : option string)
    (p err : string) (status : Z) (ctype : option string) (w : world) :
  net w p = Reply status ctype (BodyError err) →
  ∃ w1 w', proxy_remote email mid p w = (Ok placeholder, w')
    ∧ wrote IMG_READ_FILE (line (stamped w (remote_ok email mid p))) w w1
    ∧ ticks w1 = S (ticks w)
    ∧ wrote IMG_READ_FILE (line (stamped w1 (remote_failed email mid p err))) w1 w'
    ∧ ticks w' = S (ticks w1).
Proof.
  intros Hn.
  destruct (append_event_spec IMG_READ_FILE (remote_ok email mid p) w)
    as (w1 & Ha & Hw & Ht & _).
  destruct (append_event_spec IMG_READ_FILE (remote_failed email mid p err) w1)
    as (w' & Ha' & Hw' & Ht' & _).
  rewrite stamp_ticks_fresh in Ht, Ht' by no_time.
  exists w1, w'. split; [|split; [done|split; [lia|split; [done|lia]]]].
  unfold proxy_remote, bind, requests_get. by rewrite Hn, Ha, Ha'.
Qed.

(** The resolver appends at most two lines to the image-read log. *)
Lemma resolve_steps (email : string) (image_param mid : option string) (w : world) :
  rtc (line_step IMG_READ_FILE) w (exec (resolve email image_param mid) w).
Proof.
  unfold exec. destruct (truthy image_param) eqn:Ht.
  2:{ by rewrite resolve_absent. }
  destruct image_param as [p|]; [|done].
  destruct (is_remote p) eqn:Hr.
  - rewrite resolve_remote by done.
    destruct (net w p) as [err|status ctype [bytes|err]] eqn:Hn.
    + destruct (proxy_remote_error email mid p err w Hn) as (w' & -> & H & Hk).
      apply rtc_once. eapply line_step_wrote; [apply plain_remote_failed| |done..].
      no_time.
    + destruct (proxy_remote_reply email mid p bytes status ctype w Hn)
        as (w' & -> & H & Hk).
      apply rtc_once. eapply line_step_wrote; [apply plain_remote_ok| |done..].
      no_time.
    + destruct (proxy_remote_body_error_steps email mid p err status ctype w Hn)
        as (w1 & w' & -> & H1 & Ht1 & H & Ht2).
      eapply rtc_l; [|apply rtc_once].
      * eapply line_step_wrote; [apply plain_remote_ok| |done..]. no_time.
      * eapply line_step_wrote; [apply plain_remote_failed| |done..]. no_time.
  - rewrite resolve_local by done. unfold bind.
    destruct (uploads w !! upload_path p) as [[bytes|err]|] eqn:Hu.
    + destruct (serve_local_file email mid p bytes w Hu) as (w' & -> & H & Hk).
      apply rtc_once. eapply line_step_wrote; [apply plain_local_ok| |done..].
      no_time.
    + destruct (serve_local_unreadable email mid p err w Hu) as (w' & -> & H & Hk).
      apply rtc_once. eapply line_step_wrote; [apply plain_local_failed| |done..].
      no_time.
    + by rewrite serve_local_missing.
Qed.

Lemma wrote_elsewhere (path q text : string) (w w' : world) :
  q ≠ path → wrote path text w w' → (ticks w ≤ ticks w')%nat → line_step q w w'.
Proof. intros Hq (_ & Ho & Hc & _) Ht. apply line_step_same; [done..|by apply Ho]. Qed.

Lemma kept_step (q : string) (w w' : world) :
  kept w w' → (ticks w ≤ ticks w')%nat → line_step q w w'.
Proof. intros (Hk & Hc & _) Ht. by apply line_step_same. Qed.

(** Every request is a few steps of the image-read log. *)
Lemma handle_img_steps (c : call) (w : world) :
  rtc (line_step IMG_READ_FILE) w (handle c w).
Proof.
  destruct (is_query c) eqn:Hq.
  { destruct (query_kept c w Hq) as [Hk Ht]. apply rtc_once, kept_step; [done|lia]. }
  destruct c as [email image mid rq|email redirect mid [rq|]| | | | |]; try done;
    unfold handle.
  - unfold exec, api_img.
    destruct (already_opened_recent_spec email mid 10 w) as (w0 & Hg & Hk & Ht).
    assert (line_step IMG_READ_FILE w w0) as G0 by (apply kept_step; [done|lia]).
    destruct (scan email mid _ _) as [seen|e] eqn:Es.
    2:{ erewrite bind_raise by done. by apply rtc_once. }
    erewrite bind_ok by done. destruct seen; simpl.
    + erewrite bind_ok by done. eapply rtc_l; [done|].
      apply (resolve_steps email (decode_image image) mid w0).
    + destruct (append_event_spec LOG_FILE
                  (pixel_event email (decode_image image) mid rq) w0)
        as (w1 & Ha & Hw1 & Ht1 & _).
      erewrite bind_ok by done. eapply rtc_l; [done|]. eapply rtc_l.
      * eapply (wrote_elsewhere LOG_FILE IMG_READ_FILE); [done|done|lia].
      * apply (resolve_steps email (decode_image image) mid w1).
  - unfold exec.
    destruct (api_click_spec email redirect mid rq w) as (w' & -> & Hw & Ht). simpl.
    apply rtc_once. eapply (wrote_elsewhere LOG_FILE IMG_READ_FILE); [done|done|lia].
Qed.

Lemma run_steps (path : string) (cs : list call) (w : world) :
  (∀ c w, rtc (line_step path) w (handle c w)) →
  rtc (line_step path) w (run cs w).
Proof.
  intros Hh. revert w. induction cs as [|c cs IH]; intros w; [apply rtc_refl|].
  change (run (c :: cs) w) with (run cs (handle c w)). etrans; [apply Hh|apply IH].
Qed.



Lemma timed_step (path : string) (w w' : world) :
  steady (clock w) → timed path w → line_step path w w' → timed path w'.
Proof.
  intros [Hdt Hmono] (Hc & ts & Hs & Hsort & Hb) (Hclk & Ht & Hl).
  assert (now w <= now w') as Hnow.
  { unfold now. rewrite Hclk. by apply Hmono. }
  destruct Hl as [Hl|(d & i & Hd & Hi & Hl)].
  - split; [by rewrite Hl|]. exists ts. unfold records. rewrite Hl.
    split; [done|]. split; [done|]. eapply Forall_impl; [done|]. simpl. lia.
  - set (ev := <["time" := JStr (isoformat (clock w i) +:+ "Z")]> d) in *.
    assert (plain ev) as Hev by (apply plain_insert; [apply scalar_str|done]).
    assert (records w' path = records w path ++ [JDict ev]) as Hr.
    { unfold records. rewrite Hl. by apply records_line. }
    split.
    { rewrite Hl. unfold line. rewrite <-str_app_assoc. apply closed_app_nl. }
    exists (ts ++ [clock w i]). rewrite Hr. split; [|split].
    + apply Forall2_app; [done|]. constructor; [|done].
      exists ev. split; [done|]. split; [by apply lookup_insert_eq|].
      by apply time_of_stamp.
    + apply StronglySorted_app. split; [|split; [done|by repeat constructor]].
      intros x1 x2 Hx1 ->%list_elem_of_singleton.
      rewrite Forall_forall in Hb. specialize (Hb x1 Hx1).
      assert (now w <= clock w i) by (apply Hmono; lia). lia.
    + apply Forall_app. split.
      * eapply Forall_impl; [done|]. simpl. lia.
      * constructor; [|done]. unfold now. rewrite Hclk. apply Hmono. lia.
Qed.

Lemma timed_steps (path : string) (w w' : world) :
  rtc (line_step path) w w' → steady (clock w) → timed path w → timed path w'.
Proof.
  induction 1 as [|w1 w2 w3 H12 _ IH]; [done|]. intros Hst Hinv.
  apply IH; [|by eapply timed_step].
  destruct H12 as (-> & _). done.
Qed.

Lemma handle_log_steps (c : call) (w : world) : rtc (line_step LOG_FILE) w (handle c w).
Proof. apply rtc_once, (handle_log_step c w). Qed.

(** X16. The image-read log keeps the order of time as the primary log
    does: on a deployment that starts with an empty image-read log and a
    clock that never runs backwards, after any sequence of requests every
    record of the image-read log is an object with a [time], the stamp of a
    reading of the clock, and these times never decrease along the file,
    a fetch that logs a success and then a failure included. *)
Theorem image_read_times_never_decrease (cs : list call) (w0 : world) :
  steady (clock w0) → content w0 IMG_READ_FILE = "" →
  ∃ ts, Forall2 stored_at (records (run cs w0) IMG_READ_FILE) ts
        ∧ StronglySorted Z.le ts.
Proof.
  intros Hst Hc.
  assert (timed IMG_READ_FILE w0) as Hinv.
  { split; [by rewrite Hc|]. exists []. unfold records. rewrite Hc.
    by repeat constructor. }
  destruct (timed_steps IMG_READ_FILE w0 (run cs w0)
              (run_steps _ cs w0 handle_img_steps) Hst Hinv) as (_ & ts & ? & ? & _).
  by exists ts.
Qed.


End both_logs.

(** ** Downloads *)

Section downloads.
Context `{P : Platform} {L : PlatformLaws P}.

Lemma lines_snoc (ds : list (gmap string json)) (d : gmap string json) :
  lines (ds ++ [d]) = lines ds +:+ line d.
Proof.
  unfold lines. induction ds as [|d' ds IH]; simpl.
  - by rewrite str_app_nil_r, str_app_nil_l.
  - by rewrite IH, str_app_assoc.
Qed.

Lemma records_lines (ds : list (gmap string json)) :
  Forall plain ds →
  Text.closed (lines ds) = true
  ∧ omap parse_line (Text.readlines (lines ds)) = JDict <$> ds.
Proof.
  induction ds as [|d ds IH] using rev_ind; [done|].
  intros [Hds Hd]%Forall_app. apply Forall_cons in Hd as [Hd _].
  destruct (IH Hds) as [Hc Hr]. rewrite lines_snoc. split.
  - unfold line. rewrite <-str_app_assoc. apply closed_app_nl.
  - by rewrite records_line, Hr, fmap_app.
Qed.

Lemma lined_step (path : string) (w w' : world) (ds : list (gmap string json)) :
  lined path w ds → line_step path w w' → ∃ ds', lined path w' ds'.
Proof.
  intros [Hp Hc] (_ & _ & [Hl|(d & i & Hd & _ & Hl)]).
  - exists ds. split; [done|congruence].
  - eexists (ds ++ [_]). split.
    + apply Forall_app. split; [done|]. constructor; [|done].
      apply plain_insert; [apply scalar_str|done].
    + by rewrite Hl, Hc, lines_snoc.
Qed.

Lemma lined_steps (path : string) (w w' : world) :
  rtc (line_step path) w w' → (∃ ds, lined path w ds) → ∃ ds, lined path w' ds.
Proof.
  induction 1 as [|w1 w2 w3 H12 _ IH]; [done|].
  intros [ds Hds]. eapply IH, lined_step; done.
Qed.

Lemma download_logs_spec (w : world) :
  result download_logs w = Ok (content w LOG_FILE).
Proof.
  unfold result, download_logs.
  destruct (ensure_file_spec LOG_FILE w) as (w' & H & (Hk & _) & _).
  erewrite bind_ok by done. unfold read_text. simpl. by rewrite Hk.
Qed.

Lemma download_imgreads_spec (w : world) :
  result download_imgreads w = Ok (content w IMG_READ_FILE).
Proof.
  unfold result, download_imgreads.
  destruct (ensure_file_spec IMG_READ_FILE w) as (w' & H & (Hk & _) & _).
  erewrite bind_ok by done. unfold read_text. simpl. by rewrite Hk.
Qed.

(** X18. What the downloads return is what the queries read: on a
    deployment that starts with empty logs, after any sequence of requests
    each download returns the lines of the records of its log, one line of
    JSON and a newline per record, in the order [read_jsonl] returns them,
    with no blank or malformed line in between. *)
Theorem downloads_are_the_records (cs : list call) (w0 : world) :
  content w0 LOG_FILE = "" → content w0 IMG_READ_FILE = "" →
  let w := run cs w0 in
  ∃ ds rs,
    result download_logs w = Ok (lines ds)
    ∧ records w LOG_FILE = JDict <$> ds
    ∧ result download_imgreads w = Ok (lines rs)
    ∧ records w IMG_READ_FILE = JDict <$> rs.
Proof.
  intros Hl Hi w.
  destruct (lined_steps LOG_FILE w0 w (run_steps _ cs w0 handle_log_steps))
    as (ds & Hds & Hc); [by exists []|].
  destruct (lined_steps IMG_READ_FILE w0 w (run_steps _ cs w0 handle_img_steps))
    as (rs & Hrs & Hc'); [by exists []|].
  exists ds, rs. rewrite download_logs_spec, download_imgreads_spec, Hc, Hc'.
  unfold records. rewrite Hc, Hc'.
  split; [done|]. split; [by apply records_lines|]. split; [done|by apply records_lines].
Qed.

End downloads.

(** A day of requests on [Demo.fresh]: three image reads, two of them for
    one fetch whose body breaks off. *)
Lemma image_read_times_never_decrease_witness :
  length (records (P := Std.platform) (run (P := Std.platform) busy_day Demo.fresh)
            IMG_READ_FILE) = 3%nat
  ∧ ∃ ts, Forall2 (stored_at (P := Std.platform))
            (records (P := Std.platform) (run (P := Std.platform) busy_day Demo.fresh)
               IMG_READ_FILE) ts
          ∧ StronglySorted Z.le ts.
Proof.
  split; [by vm_compute|].
  exact (image_read_times_never_decrease (P := Std.platform) (L := std_laws) busy_day
           Demo.fresh demo_steady eq_refl).
Defined.



(** The downloads after the same day. *)
Lemma downloads_are_the_records_witness :
  ∃ ds, result download_logs
          (run (P := Std.platform) busy_day Demo.fresh) = Ok (lines (P := Std.platform) ds)
        ∧ records (P := Std.platform) (run (P := Std.platform) busy_day Demo.fresh)
            LOG_FILE = JDict <$> ds.
Proof.
  destruct (downloads_are_the_records (P := Std.platform) (L := std_laws) busy_day
              Demo.fresh eq_refl eq_refl) as (ds & rs & H1 & H2 & _).
  exists ds. split; [exact H1|exact H2].
Defined.
